(** * api-dashboard: the fetch hook, the view state and the chart geometry

    A shallow embedding of [components/ApiDashboard.tsx] and
    [components/ApiDashboardV3.tsx].

    - JavaScript numbers are taken as exact rationals ([Q]): the arithmetic
      of the charts is modelled without binary64 rounding.
    - React state cells ([useState]) are record fields; an effect
      ([useEffect]) is a function on the record that runs when its
      dependency array changed; the closure variable [cancelled] of each
      effect run lives in a store indexed by the run's number. *)

From Stdlib Require Import ZArith QArith Qminmax Qround String Ascii List Lia Lqa
  Sorted DecimalString.
From stdpp Require Import base option list strings gmap.

Local Open Scope string_scope.
Local Open Scope list_scope.

(** [`${n}`] for a non-negative integer. *)
Definition nat_to_string (n : nat) : string :=
  NilZero.string_of_uint (Nat.to_uint n).

(** ** The fetch hook [useDashboard] (identical in both components) *)

Module Fetch.

Section Hook.

Context {DashboardData : Type}.

(** What [fetch(url)] resolves to: the HTTP status, and what [res.json()]
    settles to (a payload, or a rejection with a message). *)
Record Response := {
  status : nat;
  json : string + DashboardData
}.

(** [res.ok]: the status is in the range 200-299. *)
Definition ok (res : Response) : bool :=
  (200 <=? status res)%nat && (status res <=? 299)%nat.

(** How the promise returned by [fetch(url)] settles. *)
Inductive Settlement :=
| Fulfilled (res : Response)
| Rejected (message : string).

(** The first [.then]: [if (!res.ok) throw new Error(`HTTP ${res.status}`);
    return res.json()]. The result is the payload handed to the second
    [.then], or the message of the error handed to [.catch]. *)
Definition chain (o : Settlement) : string + DashboardData :=
  match o with
  | Rejected message => inl message
  | Fulfilled res =>
      if ok res then json res
      else inl ("HTTP " +:+ nat_to_string (status res))
  end.

(** The three [useState] cells of the hook, the [cancelled] variable of
    every effect run so far, the run whose cleanup React still holds, and
    the number of runs. *)
Record HookState := {
  data : option DashboardData;
  loading : bool;
  error : option string;
  cancelled : gmap nat bool;
  cleanup : option nat;
  runs : nat
}.

(** [useState(null)], [useState(true)], [useState(null)]; no effect has run. *)
Definition init : HookState :=
  {| data := None; loading := true; error := None;
     cancelled := ∅; cleanup := None; runs := 0 |}.

(** [return () => { cancelled = true; }] of the previous run. *)
Definition run_cleanup (s : HookState) : HookState :=
  match cleanup s with
  | Some i =>
      {| data := data s; loading := loading s; error := error s;
         cancelled := <[i := true]> (cancelled s);
         cleanup := None; runs := runs s |}
  | None => s
  end.

(** One run of the effect, after the cleanup of the previous one:
    [let cancelled = false; setLoading(true); setError(null); fetch(...)].
    The request started by this run is numbered [runs s]. *)
Definition run_effect (s : HookState) : HookState :=
  let s := run_cleanup s in
  {| data := data s; loading := true; error := None;
     cancelled := <[runs s := false]> (cancelled s);
     cleanup := Some (runs s); runs := S (runs s) |}.

(** The promise of request [id] settles: the callbacks of [.then],
    [.catch] and [.finally] run, each behind [if (!cancelled)]. *)
Definition settle (id : nat) (o : Settlement) (s : HookState) : HookState :=
  match cancelled s !! id with
  | Some false =>
      match chain o with
      | inr d =>
          {| data := Some d; loading := false; error := error s;
             cancelled := cancelled s; cleanup := cleanup s; runs := runs s |}
      | inl message =>
          {| data := data s; loading := false; error := Some message;
             cancelled := cancelled s; cleanup := cleanup s; runs := runs s |}
      end
  | _ => s
  end.

(** What can happen to a mounted hook. *)
Inductive Event :=
| DepsChanged                       (* [apiUrl] or [timeWindow] changed *)
| Settles (id : nat) (o : Settlement)
| Unmount.

Definition step (s : HookState) (e : Event) : HookState :=
  match e with
  | DepsChanged => run_effect s
  | Settles id o => settle id o s
  | Unmount => run_cleanup s
  end.

Definition run (evs : list Event) (s : HookState) : HookState :=
  fold_left step evs s.

(** The first render followed by the first run of the effect. *)
Definition mount : HookState := run_effect init.

(** The [status] of the specification's FetchState, read off the three
    cells the way the components render them ([loading ? skeleton : ...],
    [error && banner], [data?.x]). *)
Inductive Status := St_idle | St_loading | St_success | St_error.

Definition status_of (s : HookState) : Status :=
  if loading s then St_loading
  else match error s with
       | Some _ => St_error
       | None => match data s with Some _ => St_success | None => St_idle end
       end.

(** Only the [cancelled] variable of the run whose cleanup is pending can
    still be [false], and no run beyond [runs] has a variable. *)
Definition current_only (s : HookState) : Prop :=
  (∀ id, cancelled s !! id = Some false → cleanup s = Some id) ∧
  (∀ id, (runs s <= id)%nat → cancelled s !! id = None) ∧
  (∀ id, cleanup s = Some id → (id < runs s)%nat).

(** The failures the specification names: a response whose status is not
    2xx, or a rejected [fetch] (network failure); and the message each
    one carries. *)
Definition fetch_failed (o : Settlement) : Prop :=
  match o with
  | Fulfilled res => ok res = false
  | Rejected _ => True
  end.

Definition failure_message (o : Settlement) : string :=
  match o with
  | Fulfilled res => "HTTP " +:+ nat_to_string (status res)
  | Rejected message => message
  end.

End Hook.

Arguments Response : clear implicits.
Arguments Settlement : clear implicits.
Arguments HookState : clear implicits.
Arguments Event : clear implicits.

End Fetch.

(** ** React's render environment

    The only ambient input of the chart components is [useId()]. A render
    runs in an environment that hands out the identifiers. *)

Module React.

Record Env := {
  idOf : nat → string;      (* the identifier of the n-th [useId] call *)
  hookCalls : nat
}.

Definition Render (A : Type) : Type := Env → A * Env.

Definition ret {A} (a : A) : Render A := fun env => (a, env).

Definition bind {A B} (m : Render A) (k : A → Render B) : Render B :=
  fun env => let '(a, env') := m env in k a env'.

Definition useId : Render string :=
  fun env => (idOf env (hookCalls env),
              {| idOf := idOf env; hookCalls := S (hookCalls env) |}).

End React.

(** ** JavaScript helpers *)

Definition Z_to_string (z : Z) : string :=
  match z with
  | Zneg p => "-" +:+ nat_to_string (Pos.to_nat p)
  | _ => nat_to_string (Z.to_nat z)
  end.

(** [Math.round]: the nearest integer, halves upward. *)
Definition Math_round (x : Q) : Z := Qfloor (x + (1 # 2))%Q.

(** [x.toFixed(1)] (for magnitudes below 1e21): the sign, then the nearest
    number of tenths of the magnitude, the larger one on a tie. *)
Definition toFixed1 (x : Q) : string :=
  let neg := Qlt_le_dec x 0 in
  let m := if neg then Qopp x else x in
  let n := Qfloor (m * 10 + (1 # 2))%Q in
  (if neg then "-" else EmptyString) +:+
  Z_to_string (n / 10) +:+ "." +:+ Z_to_string (n mod 10).

(** [s.replace(/:/g, ...)] with the empty replacement: every colon is
    removed. *)
Fixpoint remove_colons (s : string) : string :=
  match s with
  | EmptyString => EmptyString
  | String c rest =>
      if Ascii.eqb c ":"%char then remove_colons rest
      else String c (remove_colons rest)
  end.

(** Whether a string contains a colon. *)
Fixpoint has_colon (s : string) : bool :=
  match s with
  | EmptyString => false
  | String c rest => Ascii.eqb c ":"%char || has_colon rest
  end.

(** [i % k] on non-negative integers; [None] is NaN (k = 0). *)
Definition js_rem (i k : nat) : option nat :=
  if (k =? 0)%nat then None else Some (i mod k)%nat.

(** [l.slice(start, end)], negative indices counting from the end. *)
Definition js_slice {A} (l : list A) (start end_ : Z) : list A :=
  let len := Z.of_nat (length l) in
  let k := if (start <? 0)%Z then Z.max (len + start) 0 else Z.min start len in
  let final := if (end_ <? 0)%Z then Z.max (len + end_) 0 else Z.min end_ len in
  take (Z.to_nat (final - k)) (drop (Z.to_nat k) l).

(** [2 * Math.PI * r], with [Math.PI] the binary64 number nearest to pi. *)
Definition Math_PI : Q := (884279719003555 # 281474976710656)%Q.

(** A [<circle>] of a donut: [strokeDasharray={`${dash} ${gap}`}],
    [strokeDashoffset], [stroke], and the angle of [transform=rotate(...)]. *)
Record Arc := {
  dash : Q;
  gap : Q;
  dashoffset : Q;
  stroke : string;
  rotate : Q
}.

Record Slice := { label : string; pct : Q; color : string }.

Record DonutSvg := {
  arcs : list Arc;
  centerLabel : string;
  caption : string
}.

(** The body shared by [DonutChart] (r = 46) and [Donut] (r = 28):
    [let offset = 0; slices.map(s => { dash = ...; el = <circle .../>;
    offset += dash; return el; })], then the two [<text>] elements. *)
Definition circumference (r : Q) : Q := (2 * Math_PI * r)%Q.

Definition donut_arcs (r : Q) (slices : list Slice) : list Arc :=
  snd (fold_left
         (fun '(offset, els) s =>
            let dash := ((pct s / 100) * circumference r)%Q in
            let gap := (circumference r - dash)%Q in
            let el := {| dash := dash; gap := gap; dashoffset := (- offset)%Q;
                         stroke := color s; rotate := (-90)%Q |} in
            ((offset + dash)%Q, els ++ [el]))
         slices (0%Q, [])).

(** [{slices[0]?.pct.toFixed(1)}%]: the children of the [<text>] are the
    optional number and the literal [%]; React renders [undefined] as
    nothing. *)
Definition donut_center (slices : list Slice) : string :=
  match slices !! 0%nat with
  | Some s => toFixed1 (pct s)
  | None => EmptyString
  end +:+ "%".

(** The arcs drawn for [slices] when the running [offset] has a given
    value: the body of the [map] callback, slice after slice. *)
Fixpoint arcs_from (r : Q) (offset : Q) (slices : list Slice) : list Arc :=
  match slices with
  | [] => []
  | s :: rest =>
      let dash := ((pct s / 100) * circumference r)%Q in
      {| dash := dash; gap := (circumference r - dash)%Q;
         dashoffset := (- offset)%Q; stroke := color s; rotate := (-90)%Q |}
      :: arcs_from r (offset + dash)%Q rest
  end.

(** The sum of a list of numbers. *)
Definition Qsum (l : list Q) : Q := fold_right Qplus 0%Q l.

Definition donut (r : Q) (slices : list Slice) : DonutSvg :=
  {| arcs := donut_arcs r slices;
     centerLabel := donut_center slices;
     caption := "success" |}.

(** ** [components/ApiDashboard.tsx] *)

Module V1.

Record ChartPoint := { hour : string; success : Q; error : Q }.

(** The constants of [RequestChart]. *)
Definition W : Q := 560%Q.
Definition H : Q := 160%Q.
Definition padL : Q := 20%Q.
Definition padB : Q := 20%Q.
Definition padT : Q := 10%Q.
Definition chartW : Q := (W - padL)%Q.
Definition chartH : Q := (H - padB - padT)%Q.

(** [Math.max(...points.map((p) => Math.max(p.success, p.error)), 1) * 1.1] *)
Definition maxVal (points : list ChartPoint) : Q :=
  (fold_right Qmax 1 (map (fun p => Qmax (success p) (error p)) points)
   * (11 # 10))%Q.

Definition index (i : nat) : Q := inject_Z (Z.of_nat i).

(** [padL + (i / (points.length - 1)) * chartW] *)
Definition px (points : list ChartPoint) (i : nat) : Q :=
  (padL + (index i / (index (length points) - 1)) * chartW)%Q.

(** [padT + (1 - v / maxVal) * chartH] *)
Definition py (points : list ChartPoint) (v : Q) : Q :=
  (padT + (1 - v / maxVal points) * chartH)%Q.

(** [points.reduce((acc, _, i) => { if (i === 0 || i === points.length - 1
    || i % Math.floor(points.length / 5) === 0) acc.push(i); return acc; }, [])] *)
Definition xLabelIndices (points : list ChartPoint) : list nat :=
  fold_left
    (fun acc i =>
       if (i =? 0)%nat
          || (i =? length points - 1)%nat
          || match js_rem i (length points / 5) with
             | Some 0%nat => true
             | _ => false
             end
       then acc ++ [i] else acc)
    (seq 0 (length points)) [].

Definition gridYFractions : list Q := [0; 33 # 100; 67 # 100; 1]%Q.

(** Everything [RequestChart] draws apart from the gradient's id. *)
Record ChartGeometry := {
  grid : list (Q * string);      (* y of the line, text of its label *)
  successArea : string;          (* [d] of the filled path *)
  successPts : string;           (* [points] of the solid polyline *)
  errorPts : string;             (* [points] of the dashed polyline *)
  xLabels : list (Q * string);   (* x and text of the axis labels *)
  cursor : Q;                    (* x of the vertical line *)
  marker : Q * Q                 (* centre of the circle on the last point *)
}.

Inductive ChartSvg :=
| EmptyFrame (width height : Q)
| Chart (gradId : string) (g : ChartGeometry).

Section Render.

(** [`${x}`] for a number. *)
Variable str : Q → string.

Definition gridLabels (points : list ChartPoint) : list string :=
  map (fun f =>
         let v := Math_round (f * maxVal points) in
         if (1000 <=? v)%Z
         then Z_to_string (Math_round (inject_Z v / 1000)) +:+ "k"
         else Z_to_string v)
      gridYFractions.

Definition chart_geometry (points : list ChartPoint) : ChartGeometry :=
  let last := (length points - 1)%nat in
  let first_success := from_option success 0%Q (points !! 0%nat) in
  let last_success := from_option success 0%Q (points !! last) in
  {| grid :=
       zip (map (fun f => (padT + (1 - f) * chartH)%Q) gridYFractions)
           (gridLabels points);
     successArea :=
       "M" +:+ str (px points 0) +:+ "," +:+ str (py points first_success)
       +:+ " " +:+
       String.concat " "
         (imap (fun i p => "L" +:+ str (px points (i + 1)) +:+ ","
                           +:+ str (py points (success p)))
               (drop 1 points))
       +:+ " L" +:+ str (px points last) +:+ "," +:+ str (padT + chartH)%Q
       +:+ " L" +:+ str padL +:+ "," +:+ str (padT + chartH)%Q +:+ " Z";
     successPts :=
       String.concat " "
         (imap (fun i p => str (px points i) +:+ ","
                           +:+ str (py points (success p))) points);
     errorPts :=
       String.concat " "
         (imap (fun i p => str (px points i) +:+ ","
                           +:+ str (py points (error p))) points);
     xLabels :=
       map (fun i => (px points i, from_option hour EmptyString (points !! i)))
           (xLabelIndices points);
     cursor := px points last;
     marker := (px points last, py points last_success) |}.

(** [RequestChart]: the guard, then [useId()] and the drawing. *)
Definition RequestChart (points : list ChartPoint) : React.Render ChartSvg :=
  if (length points <? 2)%nat then React.ret (EmptyFrame 560 160)
  else
    React.bind React.useId (fun id =>
    let uid := remove_colons id in
    let gradId := uid +:+ "-area" in
    React.ret (Chart gradId (chart_geometry points))).

End Render.

(** The scale in the words of the specification: the maximum over all
    primary and secondary values, multiplied by 1.1, floored at 1. *)
Definition all_values (points : list ChartPoint) : list Q :=
  map success points ++ map error points.

Definition Qlist_max (l : list Q) : Q :=
  match l with
  | [] => 0%Q
  | x :: rest => fold_left Qmax rest x
  end.

Definition spec_maxValue (points : list ChartPoint) : Q :=
  Qmax (Qlist_max (all_values points) * (11 # 10))%Q 1%Q.

(** [DonutChart]: [r = 46]. *)
Definition DonutChart (slices : list Slice) : DonutSvg := donut 46 slices.

End V1.

(** ** [components/ApiDashboardV3.tsx] *)

Module V3.

Inductive ErrorLevel := ok | warn | bad.

(** [sparkColor], with the values of the design tokens. *)
Definition sparkColor (level : ErrorLevel) : string :=
  match level with
  | ok => "#4f46e5"
  | warn => "#d97706"
  | bad => "#dc2626"
  end.

(** The constants of [Sparkline]. *)
Definition W : Q := 72%Q.
Definition H : Q := 28%Q.
Definition pad : Q := 2%Q.

Definition index (i : nat) : Q := inject_Z (Z.of_nat i).

(** [values.map((_, i) => pad + (i / (values.length - 1)) * (W - pad * 2))] *)
Definition xs (values : list Q) : list Q :=
  imap (fun i _ => (pad + (index i / (index (length values) - 1))
                          * (W - pad * 2))%Q) values.

(** [values.map((v) => pad + (1 - v) * (H - pad * 2 - 4))] *)
Definition ys (values : list Q) : list Q :=
  map (fun v => (pad + (1 - v) * (H - pad * 2 - 4))%Q) values.

Record SparkGeometry := {
  area : string;
  pts : string;
  dot : Q * Q;
  sparkStroke : string
}.

Inductive SparkSvg :=
| EmptySpark (width height : Q)
| Spark (gradId : string) (g : SparkGeometry).

Section Render.

(** [`${x}`] for a number. *)
Variable str : Q → string.

Definition at_ (l : list Q) (i : nat) : Q := from_option id 0%Q (l !! i).

Definition spark_geometry (values : list Q) (level : ErrorLevel)
  : SparkGeometry :=
  let xs := xs values in
  let ys := ys values in
  {| pts :=
       String.concat " "
         (imap (fun i x => str x +:+ "," +:+ str (at_ ys i)) xs);
     area :=
       "M" +:+ str (at_ xs 0) +:+ "," +:+ str (at_ ys 0) +:+ " " +:+
       String.concat " "
         (imap (fun i x => "L" +:+ str x +:+ "," +:+ str (at_ ys (i + 1)))
               (drop 1 xs))
       +:+ " L" +:+ str (at_ xs (length xs - 1)) +:+ "," +:+ str H
       +:+ " L" +:+ str (at_ xs 0) +:+ "," +:+ str H +:+ " Z";
     dot := (at_ xs (length xs - 1), at_ ys (length ys - 1));
     sparkStroke := sparkColor level |}.

Definition Sparkline (values : list Q) (level : ErrorLevel)
  : React.Render SparkSvg :=
  if (length values <? 2)%nat then React.ret (EmptySpark W H)
  else
    React.bind React.useId (fun id =>
    let uid := remove_colons id in
    let gradId := uid +:+ "-sg" in
    React.ret (Spark gradId (spark_geometry values level))).

End Render.

(** [Donut]: [r = 28]. *)
Definition Donut (slices : list Slice) : DonutSvg := donut 28 slices.

(** The bars of [LatencyHistogram]. *)
Record Bucket := { bucketLabel : string; count : Z; bucketPct : Q }.

Record Bar := {
  heightPercent : Q;           (* [Math.max(b.pct * 100, 2)] *)
  background : string;
  countShown : bool            (* [b.pct > 0.15 && <span>...] *)
}.

Definition gtb (x y : Q) : bool := negb (Qle_bool x y).

Definition bar (b : Bucket) : Bar :=
  {| heightPercent := Qmax (bucketPct b * 100) 2;
     background :=
       if gtb (bucketPct b) (7 # 10) then "#dc2626"
       else if gtb (bucketPct b) (4 # 10) then "#4f46e5"
       else "#c7d2fe";
     countShown := gtb (bucketPct b) (15 # 100) |}.

Definition LatencyHistogram (histogram : list Bucket) : list Bar :=
  map bar histogram.

(** *** The state of [ApiDashboardV3] *)

(** The four [useState] cells, and the [activeWindow] that the effect
    [useEffect(() => { setPage(1); setAlertDismissed(false); },
    [activeWindow])] saw when it last ran ([None] before the mount). *)
Record ViewState := {
  activeWindow : string;
  alertDismissed : bool;
  page : Z;
  expandedPath : option string;
  effectDeps : option string
}.

Definition init : ViewState :=
  {| activeWindow := "24h"; alertDismissed := false; page := 1;
     expandedPath := None; effectDeps := None |}.

(** After a render React runs the effect if its dependency array differs
    from the one of its last run. *)
Definition commit (s : ViewState) : ViewState :=
  match effectDeps s with
  | Some w =>
      if String.eqb w (activeWindow s) then s
      else {| activeWindow := activeWindow s; alertDismissed := false;
              page := 1; expandedPath := expandedPath s;
              effectDeps := Some (activeWindow s) |}
  | None =>
      {| activeWindow := activeWindow s; alertDismissed := false;
         page := 1; expandedPath := expandedPath s;
         effectDeps := Some (activeWindow s) |}
  end.

Definition mount : ViewState := commit init.

(** [onClick={() => setActiveWindow(w)}], then the render and its effects. *)
Definition selectWindow (w : string) (s : ViewState) : ViewState :=
  commit {| activeWindow := w; alertDismissed := alertDismissed s;
            page := page s; expandedPath := expandedPath s;
            effectDeps := effectDeps s |}.

(** [setExpandedPath((prev) => (prev === path ? null : path))] *)
Definition toggleExpand (path : string) (s : ViewState) : ViewState :=
  {| activeWindow := activeWindow s; alertDismissed := alertDismissed s;
     page := page s;
     expandedPath :=
       match expandedPath s with
       | Some prev => if String.eqb prev path then None else Some path
       | None => Some path
       end;
     effectDeps := effectDeps s |}.

(** [onClick={() => setAlertDismissed(true)}] *)
Definition dismissAlert (s : ViewState) : ViewState :=
  {| activeWindow := activeWindow s; alertDismissed := true;
     page := page s; expandedPath := expandedPath s;
     effectDeps := effectDeps s |}.

Definition setPage (f : Z → Z) (s : ViewState) : ViewState :=
  {| activeWindow := activeWindow s; alertDismissed := alertDismissed s;
     page := f (page s); expandedPath := expandedPath s;
     effectDeps := effectDeps s |}.

(** [Math.max(1, Math.ceil(endpoints.length / pageSize))], for a
    [pageSize] that is not zero. *)
Definition totalPages {A} (endpoints : list A) (pageSize : Z) : Z :=
  Z.max 1 (Qceiling (inject_Z (Z.of_nat (length endpoints))
                     / inject_Z pageSize)).

(** [endpoints.slice((page - 1) * pageSize, page * pageSize)] *)
Definition visibleEndpoints {A} (endpoints : list A) (page pageSize : Z)
  : list A :=
  js_slice endpoints ((page - 1) * pageSize) (page * pageSize).

(** The three kinds of pagination button:
    [setPage((p) => Math.max(1, p - 1))],
    [setPage(p)] on the button numbered [p], and
    [setPage((p) => Math.min(totalPages, p + 1))]. *)
Definition prevPage (s : ViewState) : ViewState :=
  setPage (fun p => Z.max 1 (p - 1)) s.

Definition selectPage (p : Z) (s : ViewState) : ViewState :=
  setPage (fun _ => p) s.

Definition nextPage (totalPages : Z) (s : ViewState) : ViewState :=
  setPage (fun p => Z.min totalPages (p + 1)) s.

(** [Array.from({ length: totalPages }, (_, i) => i + 1)]: the numbers of
    the page buttons that are rendered. *)
Definition pageButtons (totalPages : Z) : list Z :=
  map (fun i => Z.of_nat i + 1)%Z (seq 0 (Z.to_nat totalPages)).

(** The effect has run for the [activeWindow] that is displayed: the
    state between two events of a mounted component. *)
Definition settled (s : ViewState) : Prop :=
  effectDeps s = Some (activeWindow s).


(** The footer: [Showing {Math.min((page - 1) * pageSize + 1,
    endpoints.length)}-{Math.min(page * pageSize, endpoints.length)} of
    {endpoints.length} endpoints]. *)
Definition showingFrom {A} (endpoints : list A) (page pageSize : Z) : Z :=
  Z.min ((page - 1) * pageSize + 1) (Z.of_nat (length endpoints)).

Definition showingTo {A} (endpoints : list A) (page pageSize : Z) : Z :=
  Z.min (page * pageSize) (Z.of_nat (length endpoints)).

(** [disabled={page === 1}] and [disabled={page === totalPages}] *)
Definition prevDisabled (s : ViewState) : bool := (page s =? 1)%Z.

Definition nextDisabled (totalPages : Z) (s : ViewState) : bool :=
  (page s =? totalPages)%Z.

(** The windows of the selector:
    [["1h","6h","24h","7d","30d"].map((w) => <button ...>)]. *)
Definition windows : list string := ["1h"; "6h"; "24h"; "7d"; "30d"].

(** The fields of an endpoint that the table's logic reads. *)
Record Endpoint := {
  method : string;
  path : string;
  sparkline : list Q;
  errorLevel : ErrorLevel;
  histogram : list Bucket
}.

(** [const isExpanded = expandedPath === ep.path] *)
Definition isExpanded (s : ViewState) (ep : Endpoint) : bool :=
  match expandedPath s with
  | Some p => String.eqb p (path ep)
  | None => false
  end.

(** The rows of the table: each visible endpoint with its key
    [`${ep.method}-${ep.path}`] and, behind [isExpanded &&], the bars of
    its histogram panel. *)
Definition rowPanels (s : ViewState) (rows : list Endpoint)
  : list (string * option (list Bar)) :=
  map (fun ep =>
         (method ep +:+ "-" +:+ path ep,
          if isExpanded s ep then Some (LatencyHistogram (histogram ep))
          else None))
      rows.

(** One click on a control that is rendered and enabled, when the
    pagination shows [tp] pages. A disabled button does not fire. (The
    dismiss button and the rows are taken as always present.) *)
Inductive view_step (tp : Z) : ViewState → ViewState → Prop :=
| step_window s w : w ∈ windows → view_step tp s (selectWindow w s)
| step_prev s : prevDisabled s = false → view_step tp s (prevPage s)
| step_page s p : p ∈ pageButtons tp → view_step tp s (selectPage p s)
| step_next s : nextDisabled tp s = false → view_step tp s (nextPage tp s)
| step_row s path : view_step tp s (toggleExpand path s)
| step_dismiss s : view_step tp s (dismissAlert s).

(** The states a mounted component reaches by clicks, when every render
    shows a number of pages that satisfies [T]. *)
Inductive reachable (T : Z → Prop) : ViewState → Prop :=
| reach_mount : reachable T mount
| reach_step tp s s' :
    reachable T s → T tp → view_step tp s s' → reachable T s'.

End V3.

(** ** [ApiDashboardV3]: the view state together with the fetch hook

    [useDashboard(apiUrl, activeWindow)] and the reset effect both depend
    on [activeWindow]; [apiUrl] is a prop that is taken as fixed. *)

Module Dashboard.

Record State (D : Type) := {
  view : V3.ViewState;
  hook : Fetch.HookState D
}.

Arguments view {D} _.
Arguments hook {D} _.

(** The first render and its effects. *)
Definition mount {D} : State D :=
  {| view := V3.mount; hook := Fetch.mount |}.

(** [onClick={() => setActiveWindow(w)}]: the render, then the effects
    whose dependency [activeWindow] differs from the one they last saw. *)
Definition clickWindow {D} (w : string) (d : State D) : State D :=
  {| view := V3.selectWindow w (view d);
     hook :=
       match V3.effectDeps (view d) with
       | Some w' =>
           if String.eqb w' w then hook d else Fetch.run_effect (hook d)
       | None => Fetch.run_effect (hook d)
       end |}.

End Dashboard.

(** * Properties *)

(** ** The fetch hook *)

Section FetchFacts.

Import Fetch.
Context {D : Type}.
Implicit Types (s : HookState D) (o : Settlement D) (e : Event D).

Lemma current_only_init : current_only (@init D).
Proof.
  split; [|split]; simpl; intros id Hid.
  - by rewrite lookup_empty in Hid.
  - apply lookup_empty.
  - discriminate.
Qed.

Lemma current_only_cleanup s :
  current_only s → current_only (run_cleanup s) ∧
                   ∀ id, cancelled (run_cleanup s) !! id ≠ Some false.
Proof.
  intros Hs. pose proof Hs as (Hlive & Hfresh & Hlt). unfold run_cleanup.
  destruct (cleanup s) as [i|] eqn:Hc.
  - assert (Hno : ∀ id, <[i:=true]> (cancelled s) !! id ≠ Some false).
    { intros id. destruct (decide (i = id)) as [->|Hne].
      - by rewrite lookup_insert_eq.
      - rewrite lookup_insert_ne by done. intros Hf.
        apply Hlive in Hf. congruence. }
    split; [|exact Hno]. split; [|split]; simpl.
    + intros id Hf. by apply Hno in Hf.
    + intros id Hge. specialize (Hlt i eq_refl).
      rewrite lookup_insert_ne by lia. by apply Hfresh.
    + discriminate.
  - split; [exact Hs|].
    intros id Hf. apply Hlive in Hf. congruence.
Qed.

Lemma runs_cleanup s : runs (run_cleanup s) = runs s.
Proof. unfold run_cleanup. by destruct (cleanup s). Qed.

Lemma data_cleanup s : data (run_cleanup s) = data s.
Proof. unfold run_cleanup. by destruct (cleanup s). Qed.

Lemma current_only_effect s : current_only s → current_only (run_effect s).
Proof.
  intros Hs. destruct (current_only_cleanup s Hs) as ((_ & Hfresh & _) & Hno).
  unfold run_effect. split; [|split]; simpl.
  - intros id. destruct (decide (runs (run_cleanup s) = id)) as [->|Hne].
    + done.
    + rewrite lookup_insert_ne by done. intros Hf. by apply Hno in Hf.
  - intros id Hge. rewrite lookup_insert_ne by lia. apply Hfresh. lia.
  - intros id [= <-]. lia.
Qed.

Lemma current_only_settle s id o : current_only s → current_only (settle id o s).
Proof.
  intros Hs. unfold settle.
  destruct (cancelled s !! id) as [[|]|]; try done.
  by destruct (chain o).
Qed.

Lemma current_only_step s e : current_only s → current_only (step s e).
Proof.
  destruct e; simpl.
  - apply current_only_effect.
  - apply current_only_settle.
  - intros Hs. by apply current_only_cleanup.
Qed.

Lemma current_only_run evs s : current_only s → current_only (run evs s).
Proof.
  revert s. induction evs as [|e evs IH]; intros s Hs; simpl; [done|].
  apply IH. by apply current_only_step.
Qed.

Lemma runs_step s e : (runs s <= runs (step s e))%nat.
Proof.
  destruct e; simpl.
  - rewrite runs_cleanup. lia.
  - unfold settle. destruct (cancelled s !! id) as [[|]|]; try done.
    by destruct (chain o).
  - by rewrite runs_cleanup.
Qed.

Lemma runs_run evs s : (runs s <= runs (run evs s))%nat.
Proof.
  revert s. induction evs as [|e evs IH]; intros s; simpl; [done|].
  etrans; [apply runs_step | apply IH].
Qed.

(** A completion of a request whose effect run is not the current one
    changes nothing. *)
Lemma settle_stale s id o :
  current_only s → cleanup s ≠ Some id → settle id o s = s.
Proof.
  intros (Hlive & _) Hne. unfold settle.
  destruct (cancelled s !! id) as [[|]|] eqn:Hc; try done.
  by apply Hlive in Hc.
Qed.

(** The request started by an effect run is the live one right after. *)
Lemma effect_live s :
  cancelled (run_effect s) !! runs s = Some false ∧
  cleanup (run_effect s) = Some (runs s) ∧
  error (run_effect s) = None ∧
  data (run_effect s) = data s.
Proof.
  unfold run_effect; simpl. rewrite runs_cleanup, data_cleanup.
  by rewrite lookup_insert_eq.
Qed.

(** C1. Request A is started, then (after anything else) request B; B
    resolves with a payload and A settles after it. The payload of the
    state is then B's, A's completion has changed nothing, and the status
    is success. In general, in every state the hook can reach, the
    completion of any request other than the one started last leaves the
    state as it is. *)
Theorem stale_completion_discarded
    (before between : list (Event D)) (resB : Response D) (pb : D)
    (oa : Settlement D) :
  ok resB = true →
  json resB = inr pb →
  let s0 := run before init in
  let a := runs s0 in
  let s1 := run between (run_effect s0) in
  let b := runs s1 in
  let sB := settle b (Fulfilled resB) (run_effect s1) in
  let final := settle a oa sB in
  a ≠ b ∧
  data final = Some pb ∧
  final = sB ∧
  status_of final = St_success ∧
  (∀ (evs : list (Event D)) id o,
      cleanup (run evs init) ≠ Some id →
      settle id o (run evs init) = run evs init).
Proof.
  intros Hok Hjson s0 a s1 b sB final.
  assert (Hs0 : current_only s0) by apply current_only_run, current_only_init.
  assert (Hs1 : current_only s1) by by apply current_only_run, current_only_effect.
  assert (Hab : (a < b)%nat).
  { subst a b s1. pose proof (runs_run between (run_effect s0)) as Hle.
    unfold run_effect in Hle at 1. simpl in Hle. rewrite runs_cleanup in Hle. lia. }
  destruct (effect_live s1) as (Hcell & Hclean & Herr & Hdata).
  assert (HsB : sB = {| data := Some pb; loading := false; error := None;
                        cancelled := cancelled (run_effect s1);
                        cleanup := Some b; runs := runs (run_effect s1) |}).
  { subst sB. unfold settle. fold b in Hcell, Hclean. rewrite Hcell. simpl.
    rewrite Hok, Hjson. subst b. by rewrite runs_cleanup. }
  assert (Hfinal : final = sB).
  { subst final. apply settle_stale.
    - subst sB. by apply current_only_settle, current_only_effect.
    - rewrite HsB. simpl. intros [= ->]. lia. }
  split; [lia|]. rewrite Hfinal, HsB.
  repeat split.
  intros evs id o Hne. apply settle_stale; [|done].
  apply current_only_run, current_only_init.
Qed.

(** C8. A fetch that fails (a response that is not 2xx, or a network
    failure) and belongs to the current effect run ends with status error
    and the failure's message in [error]; whether current or not, it
    leaves [data] as it was, and so does the whole life of a failing
    request from its start. *)
Theorem failed_fetch_keeps_data s (id : nat) o :
  fetch_failed o →
  (cancelled s !! id = Some false →
     status_of (settle id o s) = St_error ∧
     error (settle id o s) = Some (failure_message o) ∧
     loading (settle id o s) = false) ∧
  data (settle id o s) = data s ∧
  (let s' := settle (runs s) o (run_effect s) in
   status_of s' = St_error ∧ error s' = Some (failure_message o) ∧
   data s' = data s).
Proof.
  intros Hfail.
  assert (Hchain : chain o = inl (failure_message o)).
  { destruct o as [res|m]; simpl in *; [by rewrite Hfail | done]. }
  assert (Hlive : ∀ t i, cancelled t !! i = Some false →
            status_of (settle i o t) = St_error ∧
            error (settle i o t) = Some (failure_message o) ∧
            loading (settle i o t) = false ∧
            data (settle i o t) = data t).
  { intros t i Hc. unfold settle. by rewrite Hc, Hchain. }
  split; [|split].
  - intros Hc. destruct (Hlive s id Hc) as (? & ? & ? & _). done.
  - unfold settle. destruct (cancelled s !! id) as [[|]|]; try done.
    by rewrite Hchain.
  - destruct (effect_live s) as (Hc & _ & _ & Hd).
    destruct (Hlive _ _ Hc) as (? & ? & _ & Hd'). simpl.
    rewrite Hd', Hd. done.
Qed.

End FetchFacts.

(** C1 at a concrete run: the hook mounts (request 0, for A), the window
    changes (request 1, for B), B resolves, then A resolves. *)
Lemma stale_completion_discarded_witness :
  let resA := {| Fetch.status := 200; Fetch.json := inr "A" |} in
  let resB := {| Fetch.status := 200; Fetch.json := inr "B" |} in
  Fetch.ok resB = true ∧
  Fetch.data
    (Fetch.settle 0 (Fetch.Fulfilled resA)
       (Fetch.settle 1 (Fetch.Fulfilled resB)
          (Fetch.run_effect (Fetch.run_effect Fetch.init)))) = Some "B".
Proof.
  intros resA resB. split; [reflexivity|].
  exact (proj1 (proj2 (stale_completion_discarded
                         [] [] resB "B" (Fetch.Fulfilled resA)
                         eq_refl eq_refl))).
Defined.

(** C8 at a concrete run: data "old" is loaded, the window changes and the
    new request is answered with status 500. *)
Lemma failed_fetch_keeps_data_witness :
  let loaded :=
    Fetch.settle 0 (Fetch.Fulfilled {| Fetch.status := 200; Fetch.json := inr "old" |})
      Fetch.mount in
  let o := Fetch.Fulfilled {| Fetch.status := 500; Fetch.json := inl EmptyString |} in
  let s' := Fetch.settle 1 o (Fetch.run_effect loaded) in
  Fetch.fetch_failed o ∧
  Fetch.status_of s' = Fetch.St_error ∧
  Fetch.error s' = Some "HTTP 500" ∧
  Fetch.data s' = Some "old".
Proof.
  intros loaded o s'. split; [reflexivity|].
  exact (proj2 (proj2 (failed_fetch_keeps_data loaded 1 o eq_refl))).
Defined.

(** ** The view state of [ApiDashboardV3] *)

Section ViewFacts.

Import V3.
Local Open Scope Z_scope.
Implicit Types (s : ViewState) (w : string) (p : Z).

Lemma commit_settled s : settled (commit s).
Proof.
  unfold settled, commit. destruct (effectDeps s) as [w|] eqn:Hd; [|done].
  destruct (String.eqb_spec w (activeWindow s)) as [->|]; [|done].
  by rewrite Hd.
Qed.

(** C2, as amended. From a state between two events, [selectWindow w]
    with a [w] other than the active window sets [activeWindow] to [w],
    [page] to 1 and [alertDismissed] to false; with the active window
    itself it changes nothing. [expandedPath] is kept in both cases. *)
Theorem selectWindow_resets_on_change s w :
  settled s →
  let s' := selectWindow w s in
  activeWindow s' = w ∧
  expandedPath s' = expandedPath s ∧
  settled s' ∧
  (w ≠ activeWindow s → page s' = 1 ∧ alertDismissed s' = false) ∧
  (w = activeWindow s → s' = s).
Proof.
  intros Hs s'. unfold settled in Hs. subst s'. unfold selectWindow.
  split; [|split; [|split; [apply commit_settled|]]].
  - unfold commit; simpl. rewrite Hs.
    by destruct (String.eqb (activeWindow s) w).
  - unfold commit; simpl. rewrite Hs.
    by destruct (String.eqb (activeWindow s) w).
  - unfold commit; simpl. rewrite Hs. split.
    + intros Hne. destruct (String.eqb_spec (activeWindow s) w); [congruence|done].
    + intros ->. rewrite String.eqb_refl. destruct s; simpl in *. by subst.
Qed.

(** C2 as stated fails: with "7d" active, on page 2 and the alert
    dismissed, selecting "7d" again resets nothing. *)
Lemma selectWindow_same_window_keeps_page :
  let s := dismissAlert (selectPage 2 (selectWindow "7d" mount)) in
  (settled s ∧ activeWindow s = "7d" ∧
   page (selectWindow "7d" s) = 2 ∧
   alertDismissed (selectWindow "7d" s) = true) ∧
  ¬ (∀ s w, settled s →
       activeWindow (selectWindow w s) = w ∧
       page (selectWindow w s) = 1 ∧
       alertDismissed (selectWindow w s) = false ∧
       expandedPath (selectWindow w s) = expandedPath s).
Proof.
  intros s. split; [by repeat split|].
  intros Hall. destruct (Hall s "7d" eq_refl) as (_ & Hpage & _).
  discriminate Hpage.
Qed.

Lemma ceil_div (n d : Z) : 0 < d → - (- n / d) = (n + d - 1) / d.
Proof.
  intros Hd.
  pose proof (Z.div_mod (- n) d ltac:(lia)) as H1.
  pose proof (Z.mod_pos_bound (- n) d Hd) as H2.
  pose proof (Z.div_mod (n + d - 1) d ltac:(lia)) as H3.
  pose proof (Z.mod_pos_bound (n + d - 1) d Hd) as H4.
  nia.
Qed.

(** [Math.ceil(n / pageSize)] is the rounded-up integer quotient. *)
Lemma totalPages_div {A} (endpoints : list A) (pageSize : Z) :
  0 < pageSize →
  totalPages endpoints pageSize =
  Z.max 1 ((Z.of_nat (length endpoints) + pageSize - 1) / pageSize).
Proof.
  intros Hps. destruct pageSize as [|d|d]; try lia.
  unfold totalPages, Qceiling, Qfloor, Qdiv, Qinv, Qmult, Qopp, inject_Z.
  simpl. f_equal. rewrite Z.mul_1_r. by apply ceil_div.
Qed.

Lemma pageButtons_range (tp p : Z) : p ∈ pageButtons tp ↔ 1 ≤ p ≤ tp.
Proof.
  unfold pageButtons. rewrite list_elem_of_fmap. split.
  - intros (i & -> & Hi%elem_of_seq). lia.
  - intros Hp. exists (Z.to_nat (p - 1)). split; [lia|].
    apply elem_of_seq. lia.
Qed.




(** C2 at a concrete state: on page 2 of "24h" with the alert dismissed
    and a row expanded, "7d" is selected. *)
Lemma selectWindow_resets_on_change_witness :
  let s := toggleExpand "/v2/chat" (dismissAlert (selectPage 2 mount)) in
  let s' := selectWindow "7d" s in
  settled s ∧
  activeWindow s' = "7d" ∧ page s' = 1 ∧ alertDismissed s' = false ∧
  expandedPath s' = Some "/v2/chat".
Proof.
  intros s s'.
  pose proof (selectWindow_resets_on_change s "7d" eq_refl)
    as (Hw & He & _ & Hreset & _).
  destruct Hreset as [Hp Ha]; [discriminate|].
  repeat split; assumption.
Defined.

(** For a page number from 1 on, the slice is [pageSize] rows from row
    [(page - 1) * pageSize] on, as far as there are rows. *)
Lemma visibleEndpoints_take_drop {A} (endpoints : list A) p (pageSize : Z) :
  1 ≤ p → 0 < pageSize →
  visibleEndpoints endpoints p pageSize =
  take (Z.to_nat pageSize) (drop (Z.to_nat ((p - 1) * pageSize)) endpoints).
Proof.
  intros Hp Hps. unfold visibleEndpoints, js_slice.
  assert (0 ≤ (p - 1) * pageSize) as Hlo by nia.
  assert ((p - 1) * pageSize + pageSize = p * pageSize) as Hhi by lia.
  destruct (Z.ltb_spec ((p - 1) * pageSize) 0) as [?|_]; [lia|].
  destruct (Z.ltb_spec (p * pageSize) 0) as [?|_]; [lia|].
  set (len := Z.of_nat (length endpoints)).
  destruct (Z.le_gt_cases ((p - 1) * pageSize) len) as [Hin|Hout].
  - rewrite (Z.min_l ((p - 1) * pageSize) len) by lia.
    destruct (Z.le_gt_cases (p * pageSize) len) as [Hfull|Hpart].
    + rewrite (Z.min_l (p * pageSize) len) by lia. f_equal. lia.
    + rewrite (Z.min_r (p * pageSize) len) by lia.
      rewrite !take_ge; [done| |]; rewrite length_drop; lia.
  - rewrite (Z.min_r ((p - 1) * pageSize) len) by lia.
    rewrite (Z.min_r (p * pageSize) len) by lia.
    rewrite !drop_ge by lia. by rewrite !take_nil.
Qed.

Lemma concat_chunks {A} (l : list A) (m t : nat) :
  concat (map (λ i, take m (drop (i * m) l)) (seq 0 t)) = take (t * m) l.
Proof.
  induction t as [|t IH]; [done|].
  rewrite seq_S, map_app, concat_app, IH. simpl.
  rewrite app_nil_r, take_take_drop. f_equal. lia.
Qed.

(** C10. With a positive [pageSize] and a page number from 1 on, the rows
    shown are the rows [(p-1)*pageSize .. min(p*pageSize, length)) of the
    endpoint list, in order, so at most [pageSize] of them; and the pages
    1..totalPages, one after the other, are the endpoint list. *)
Theorem pages_partition {A} (endpoints : list A) (pageSize : Z) :
  0 < pageSize →
  (∀ p, 1 ≤ p →
     let rows := visibleEndpoints endpoints p pageSize in
     let lo := Z.to_nat ((p - 1) * pageSize) in
     let hi := Z.to_nat (Z.min (p * pageSize) (Z.of_nat (length endpoints))) in
     (∀ i : nat,
         rows !! i =
         if decide (lo + i < hi)%nat then endpoints !! (lo + i)%nat else None) ∧
     Z.of_nat (length rows) ≤ pageSize) ∧
  concat (map (λ p, visibleEndpoints endpoints p pageSize)
              (pageButtons (totalPages endpoints pageSize))) = endpoints.
Proof.
  intros Hps. split.
  - intros p Hp rows lo hi. subst rows.
    rewrite visibleEndpoints_take_drop by done. fold lo. split.
    + intros i. rewrite lookup_take, lookup_drop.
      assert (0 ≤ (p - 1) * pageSize) by nia.
      repeat case_decide; try done; try lia.
      apply lookup_ge_None_2. lia.
    + rewrite length_take. lia.
  - unfold pageButtons. rewrite map_map.
    rewrite (map_ext _ (λ i, take (Z.to_nat pageSize)
                               (drop (i * Z.to_nat pageSize) endpoints))).
    + rewrite concat_chunks. apply take_ge.
      rewrite totalPages_div by done.
      set (n := Z.of_nat (length endpoints)).
      pose proof (Z.div_mod (n + pageSize - 1) pageSize ltac:(lia)) as H1.
      pose proof (Z.mod_pos_bound (n + pageSize - 1) pageSize Hps) as H2.
      assert (n ≤ Z.max 1 ((n + pageSize - 1) / pageSize) * pageSize) by nia.
      subst n. nia.
    + intros i. rewrite visibleEndpoints_take_drop by lia.
      do 2 f_equal. nia.
Qed.

(** C10 at a concrete list: page 3 of five rows, two rows a page. *)
Lemma pages_partition_witness :
  0 < 2 ∧ 1 ≤ 3 ∧
  visibleEndpoints ["a"; "b"; "c"; "d"; "e"] 3 2 !! 0%nat = Some "e" ∧
  concat (map (λ p, visibleEndpoints ["a"; "b"; "c"; "d"; "e"] p 2)
              (pageButtons (totalPages ["a"; "b"; "c"; "d"; "e"] 2)))
  = ["a"; "b"; "c"; "d"; "e"].
Proof.
  pose proof (pages_partition ["a"; "b"; "c"; "d"; "e"] 2 ltac:(lia))
    as [Hrows Hall].
  destruct (Hrows 3 ltac:(lia)) as [Hrow _].
  split; [lia|]. split; [lia|]. split; [exact (Hrow 0%nat) | exact Hall].
Defined.

End ViewFacts.

(** ** The donut *)

Section DonutFacts.

Local Open Scope Q_scope.
Variable r : Q.

Lemma donut_arcs_from (slices : list Slice) (offset : Q) (els : list Arc) :
  snd (fold_left
         (fun '(offset, els) s =>
            let dash := (pct s / 100) * circumference r in
            let gap := circumference r - dash in
            let el := {| dash := dash; gap := gap; dashoffset := - offset;
                         stroke := color s; rotate := -90 |} in
            (offset + dash, els ++ [el]))
         slices (offset, els))
  = els ++ arcs_from r offset slices.
Proof.
  revert offset els. induction slices as [|s rest IH]; intros offset els; simpl.
  - by rewrite app_nil_r.
  - rewrite IH. by rewrite <- app_assoc.
Qed.

Lemma donut_arcs_eq (slices : list Slice) :
  donut_arcs r slices = arcs_from r 0 slices.
Proof. unfold donut_arcs. by rewrite donut_arcs_from. Qed.

Lemma arcs_from_dash slices offset :
  map dash (arcs_from r offset slices)
  = map (λ s, pct s / 100 * circumference r) slices.
Proof.
  revert offset. induction slices as [|s rest IH]; intros offset; simpl; [done|].
  by rewrite IH.
Qed.

Lemma arcs_from_stroke slices offset :
  map stroke (arcs_from r offset slices) = map color slices.
Proof.
  revert offset. induction slices as [|s rest IH]; intros offset; simpl; [done|].
  by rewrite IH.
Qed.

Lemma arcs_from_lookup slices offset (i : nat) arc :
  arcs_from r offset slices !! i = Some arc →
  rotate arc = -90 ∧
  gap arc = circumference r - dash arc ∧
  dashoffset arc ==
    - (offset + Qsum (map dash (take i (arcs_from r offset slices)))).
Proof.
  revert offset i. induction slices as [|s rest IH]; intros offset i; [done|].
  destruct i as [|i]; simpl.
  - intros [= <-]. simpl. split; [done|]. split; [done|]. ring.
  - intros Hi. destruct (IH _ _ Hi) as (Hr & Hg & Ho).
    split; [done|]. split; [done|]. rewrite Ho. ring.
Qed.

Lemma Qsum_dash slices offset :
  Qsum (map dash (arcs_from r offset slices))
  == Qsum (map pct slices) / 100 * circumference r.
Proof.
  revert offset. induction slices as [|s rest IH]; intros offset; simpl.
  - field.
  - rewrite IH. field.
Qed.

End DonutFacts.

(** C5. The arcs of a donut, for every radius (46 in [DonutChart], 28 in
    [Donut]): one arc a slice, in the order of the slices, of length
    [(pct / 100) * circumference] and in the slice's colour; every arc is
    rotated by -90 degrees and starts where the arcs before it end (its
    offset is minus the sum of their lengths, so the first starts at 0);
    and when the percentages sum to 100 the lengths sum to the
    circumference. *)
Theorem donut_arcs_consecutive (r : Q) (slices : list Slice) :
  let arcs := donut_arcs r slices in
  let c := circumference r in
  map dash arcs = map (λ s, (pct s / 100 * c)%Q) slices ∧
  map stroke arcs = map color slices ∧
  (∀ (i : nat) arc,
      arcs !! i = Some arc →
      rotate arc = (-90)%Q ∧
      gap arc = (c - dash arc)%Q ∧
      dashoffset arc == - Qsum (map dash (take i arcs))) ∧
  (Qsum (map pct slices) == 100 → Qsum (map dash arcs) == c).
Proof.
  intros arcs c. subst arcs c. rewrite donut_arcs_eq.
  split; [apply arcs_from_dash|]. split; [apply arcs_from_stroke|]. split.
  - intros i arc Hi. destruct (arcs_from_lookup _ _ _ _ _ Hi) as (Hr & Hg & Ho).
    split; [done|]. split; [done|]. rewrite Ho. ring.
  - intros H100. rewrite Qsum_dash, H100. field.
Qed.

(** C5 at a concrete breakdown, drawn by [DonutChart]. *)
Lemma donut_arcs_consecutive_witness :
  let slices := [ {| label := "2xx"; pct := 50; color := "#059669" |};
                  {| label := "4xx"; pct := 30; color := "#d97706" |};
                  {| label := "5xx"; pct := 20; color := "#dc2626" |} ] in
  Qsum (map pct slices) == 100 ∧
  Qsum (map dash (arcs (V1.DonutChart slices))) == circumference 46.
Proof.
  intros slices. split; [reflexivity|].
  apply (donut_arcs_consecutive 46 slices). reflexivity.
Defined.

(** C9, as amended. For the empty slice array both donuts draw no arc; the
    centre label has no number and reads "%", above the caption
    "success". *)
Theorem donut_empty (r : Q) :
  arcs (donut r []) = [] ∧
  centerLabel (donut r []) = "%" ∧
  caption (donut r []) = "success" ∧
  V1.DonutChart [] = donut r [] ∧
  V3.Donut [] = donut r [].
Proof. by repeat split. Qed.

(** C9 as stated fails: the centre label of the empty donut is not empty. *)
Lemma donut_empty_center_label_not_empty :
  arcs (V1.DonutChart []) = [] ∧
  centerLabel (V1.DonutChart []) = "%" ∧
  centerLabel (V3.Donut []) = "%" ∧
  ¬ (centerLabel (V1.DonutChart []) = EmptyString) ∧
  ¬ (centerLabel (V3.Donut []) = EmptyString).
Proof. by repeat split. Qed.

(** ** The request chart *)

Section ChartFacts.

Import V1.
Local Open Scope Q_scope.

Lemma Qle_lub_eq (a b : Q) : (∀ z, a <= z ↔ b <= z) → a == b.
Proof.
  intros H. apply Qle_antisym.
  - apply H, Qle_refl.
  - apply H, Qle_refl.
Qed.

Lemma foldr_max_lub (c : Q) (l : list Q) (z : Q) :
  fold_right Qmax c l <= z ↔ c <= z ∧ Forall (λ x, x <= z) l.
Proof.
  induction l as [|x l IH]; simpl.
  - split; [intros ?; by split | by intros [? _]].
  - rewrite Q.max_lub_iff, IH, Forall_cons. tauto.
Qed.

Lemma foldl_max_lub (l : list Q) (x z : Q) :
  fold_left Qmax l x <= z ↔ x <= z ∧ Forall (λ y, y <= z) l.
Proof.
  revert x. induction l as [|y l IH]; intros x; simpl.
  - split; [intros ?; by split | by intros [? _]].
  - rewrite IH, Q.max_lub_iff, Forall_cons. tauto.
Qed.

Lemma Qlist_max_lub (l : list Q) (z : Q) :
  l ≠ [] → Qlist_max l <= z ↔ Forall (λ x, x <= z) l.
Proof.
  destruct l as [|x l]; [done|]. intros _. simpl.
  by rewrite foldl_max_lub, Forall_cons.
Qed.

(** The nested maxima of the code are the maximum over all values,
    floored at 1. *)
Lemma maxVal_data_max (points : list ChartPoint) :
  points ≠ [] →
  fold_right Qmax 1 (map (λ p, Qmax (success p) (error p)) points)
  == Qmax (Qlist_max (all_values points)) 1.
Proof.
  intros Hne. apply Qle_lub_eq. intros z.
  rewrite foldr_max_lub, Q.max_lub_iff, Qlist_max_lub.
  - unfold all_values. rewrite Forall_app, !Forall_map.
    setoid_rewrite Q.max_lub_iff. rewrite Forall_and. tauto.
  - unfold all_values. by destruct points.
Qed.

(** C4, as amended. For a series of length at least 2 the scale is the
    maximum over all primary and secondary values, floored at 1, times
    1.1, so it is at least 1.1; when that maximum is at least 1 this is
    the maximum times 1.1, as the specification has it, and a value [v]
    is drawn at [padT + (1 - v / (maximum * 1.1)) * chartH]. *)
Theorem maxVal_floor_then_headroom (points : list ChartPoint) :
  (2 <= length points)%nat →
  let m := Qlist_max (all_values points) in
  maxVal points == Qmax m 1 * (11 # 10) ∧
  11 # 10 <= maxVal points ∧
  (1 <= m →
     maxVal points == m * (11 # 10) ∧
     maxVal points == spec_maxValue points ∧
     ∀ v, py points v == padT + (1 - v / (m * (11 # 10))) * chartH).
Proof.
  intros Hlen m.
  assert (Hmax : maxVal points == Qmax m 1 * (11 # 10)).
  { unfold maxVal. rewrite maxVal_data_max; [reflexivity|].
    destruct points; [simpl in Hlen; lia | done]. }
  split; [exact Hmax|]. split.
  - rewrite Hmax. pose proof (Q.le_max_r m 1) as Hle.
    apply Qle_trans with (1 * (11 # 10)); [done|].
    apply Qmult_le_compat_r; [exact Hle | done].
  - intros Hm.
    assert (Hm1 : maxVal points == m * (11 # 10)).
    { rewrite Hmax, Q.max_l by exact Hm. reflexivity. }
    split; [exact Hm1|]. split.
    + unfold spec_maxValue. fold m. rewrite Q.max_l; [exact Hm1|].
      apply Qle_trans with (1 * (11 # 10)); [done|].
      apply Qmult_le_compat_r; [exact Hm | done].
    + intros v. unfold py. rewrite Hm1. reflexivity.
Qed.

End ChartFacts.

Section ChartExamples.

Local Open Scope Q_scope.

(** C4 at the example of the specification: the scale is 165 and the first
    point is drawn at [padT + (1 - 100/165) * chartH]. *)
Lemma maxVal_floor_then_headroom_witness :
  let points := [ {| V1.hour := "00:00"; V1.success := 100; V1.error := 5 |};
                  {| V1.hour := "01:00"; V1.success := 150; V1.error := 3 |} ] in
  (2 <= length points)%nat ∧
  1 <= V1.Qlist_max (V1.all_values points) ∧
  V1.maxVal points == 165 ∧
  V1.py points 100 == V1.padT + (1 - 100 / 165) * V1.chartH.
Proof.
  intros points.
  pose proof (maxVal_floor_then_headroom points ltac:(simpl; lia))
    as (_ & _ & Hex).
  assert (Hm : 1 <= V1.Qlist_max (V1.all_values points)) by (by vm_compute).
  destruct (Hex Hm) as (Hmax & _ & Hpy).
  split; [simpl; lia|]. split; [exact Hm|]. split.
  - eapply Qeq_trans; [exact Hmax|]. by vm_compute.
  - eapply Qeq_trans; [exact (Hpy 100)|]. by vm_compute.
Defined.

(** C4 as stated fails: for a series of zeros the code's scale is 1.1,
    while the maximum times 1.1, floored at 1, is 1. *)
Lemma maxVal_of_zeros :
  let points := [ {| V1.hour := "00:00"; V1.success := 0; V1.error := 0 |};
                  {| V1.hour := "01:00"; V1.success := 0; V1.error := 0 |} ] in
  (V1.maxVal points == 11 # 10 ∧
   V1.spec_maxValue points == 1 ∧
   ¬ V1.maxVal points == V1.spec_maxValue points) ∧
  ¬ (∀ points : list V1.ChartPoint,
       (2 <= length points)%nat →
       V1.maxVal points == V1.spec_maxValue points).
Proof.
  intros points. split.
  - split; [by vm_compute|]. split; [by vm_compute|].
    intros H. by vm_compute in H.
  - intros Hall. specialize (Hall points ltac:(simpl; lia)).
    by vm_compute in Hall.
Qed.

End ChartExamples.

Section LabelFacts.

Import V1.
Local Open Scope nat_scope.

Lemma push_if_filter (P : nat → bool) (l acc : list nat) :
  fold_left (λ acc i, if P i then acc ++ [i] else acc) l acc
  = acc ++ List.filter P l.
Proof.
  revert acc. induction l as [|i l IH]; intros acc; simpl.
  - by rewrite app_nil_r.
  - rewrite IH. destruct (P i); [|done]. by rewrite <- app_assoc.
Qed.

Lemma xLabelIndices_filter (points : list ChartPoint) :
  xLabelIndices points =
  List.filter
    (λ i, (i =? 0) || (i =? length points - 1)
          || match js_rem i (length points / 5) with
             | Some 0 => true
             | _ => false
             end)
    (seq 0 (length points)).
Proof. unfold xLabelIndices. by rewrite push_if_filter. Qed.

Lemma xLabelIndices_elem (points : list ChartPoint) (i : nat) :
  i ∈ xLabelIndices points ↔
  i < length points ∧
  (i = 0 ∨ i = length points - 1 ∨ js_rem i (length points / 5) = Some 0).
Proof.
  rewrite xLabelIndices_filter, list_elem_of_In, filter_In, in_seq.
  rewrite !orb_true_iff, !Nat.eqb_eq.
  destruct (js_rem i (length points / 5)) as [[|k]|];
    intuition (congruence || lia).
Qed.

(** X16. When the series has fewer than 5 points the divisor is 0, the
    remainder is NaN, and only the first and the last index are kept. *)
Lemma xLabelIndices_short (points : list ChartPoint) :
  2 ≤ length points < 5 →
  xLabelIndices points = [0; length points - 1].
Proof.
  intros Hn. rewrite xLabelIndices_filter.
  destruct points as [|? [|? [|? [|? [|? ?]]]]]; simpl in *; try lia; done.
Qed.

(** C6, as amended. For a series of n >= 2 points the indices 0 and n-1
    are labelled; and when n >= 5 the labelled indices are exactly 0,
    n-1 and the multiples of N = max(1, floor(n/5)) below n. *)
Theorem xLabelIndices_every_nth (points : list ChartPoint) :
  let n := length points in
  2 ≤ n →
  0 ∈ xLabelIndices points ∧
  n - 1 ∈ xLabelIndices points ∧
  (5 ≤ n →
     ∀ i, i ∈ xLabelIndices points ↔
          i < n ∧ (i = 0 ∨ i = n - 1 ∨ i mod (Nat.max 1 (n / 5)) = 0)).
Proof.
  intros n Hn. split; [|split].
  - apply xLabelIndices_elem. fold n. split; [lia | by left].
  - apply xLabelIndices_elem. fold n. split; [lia | right; by left].
  - intros H5 i. rewrite xLabelIndices_elem. fold n.
    assert (1 ≤ n / 5) as Hdiv by (apply Nat.div_le_lower_bound; lia).
    rewrite Nat.max_r by done. unfold js_rem.
    destruct (Nat.eqb_spec (n / 5) 0) as [?|_]; [lia|].
    intuition congruence.
Qed.

End LabelFacts.

(** C6 at a concrete series of 12 points: N = 2, and the labels are at the
    even indices and at 11. *)
Lemma xLabelIndices_every_nth_witness :
  let points := replicate 12 {| V1.hour := "h"; V1.success := 1; V1.error := 0 |} in
  (2 ≤ length points)%nat ∧ (5 ≤ length points)%nat ∧
  (4%nat ∈ V1.xLabelIndices points ↔
   (4 < 12)%nat ∧ (4 = 0 ∨ 4 = 12 - 1 ∨ 4 mod (Nat.max 1 (12 / 5)) = 0)%nat).
Proof.
  intros points.
  pose proof (xLabelIndices_every_nth points ltac:(simpl; lia)) as (_ & _ & H).
  split; [simpl; lia|]. split; [simpl; lia|].
  exact (H ltac:(simpl; lia) 4%nat).
Defined.

(** C6 as stated fails: for a series of 3 points N = max(1, floor(3/5)) is
    1, so every index would be labelled, but index 1 is not. *)
Lemma xLabelIndices_of_three :
  let points := replicate 3 {| V1.hour := "h"; V1.success := 1; V1.error := 0 |} in
  (V1.xLabelIndices points = [0; 2]%nat ∧
   (1 mod (Nat.max 1 (3 / 5)) = 0)%nat) ∧
  ¬ (∀ points : list V1.ChartPoint,
       (2 ≤ length points)%nat →
       ∀ i : nat, i ∈ V1.xLabelIndices points ↔
            (i < length points)%nat ∧
            (i = 0 ∨ i = length points - 1
             ∨ i mod (Nat.max 1 (length points / 5)) = 0)%nat).
Proof.
  intros points. split; [by split|].
  intros Hall. specialize (Hall points ltac:(simpl; lia) 1%nat).
  destruct Hall as [_ Hin].
  assert (Hel : 1%nat ∈ V1.xLabelIndices points).
  { apply Hin. simpl. split; [lia|]. right; right. reflexivity. }
  change (V1.xLabelIndices points) with [0; 2]%nat in Hel.
  apply list_elem_of_In in Hel. simpl in Hel. intuition discriminate.
Qed.

(** * Further properties *)

(** ** The fetch hook: requests in flight *)

Section FetchMore.

Import Fetch.
Context {D : Type}.
Implicit Types (s : HookState D) (o : Settlement D) (e : Event D).

(** The run whose cleanup is pending is the last one. *)
Lemma cleanup_is_last_step s e :
  (∀ id, cleanup s = Some id → S id = runs s) →
  ∀ id, cleanup (step s e) = Some id → S id = runs (step s e).
Proof.
  intros Hs. destruct e as [|id' o|]; simpl.
  - unfold run_effect; simpl. by intros id [= <-].
  - unfold settle. destruct (cancelled s !! id') as [[|]|]; try done.
    by destruct (chain o).
  - unfold run_cleanup. destruct (cleanup s) eqn:Hc; simpl; [done|].
    intros id. by rewrite Hc.
Qed.

Lemma cleanup_is_last_run evs s :
  (∀ id, cleanup s = Some id → S id = runs s) →
  ∀ id, cleanup (run evs s) = Some id → S id = runs (run evs s).
Proof.
  revert s. induction evs as [|e evs IH]; intros s Hs; simpl; [done|].
  apply IH. by apply cleanup_is_last_step.
Qed.

Lemma settle_not_live s id o :
  cancelled s !! id ≠ Some false → settle id o s = s.
Proof.
  intros Hc. unfold settle. by destruct (cancelled s !! id) as [[|]|].
Qed.

(** X1. In every state the hook can reach, at most one request can still
    write to the state, and it is the one started last. *)
Theorem at_most_one_live_request (evs : list (Event D)) (i j : nat) :
  let s := run evs init in
  cancelled s !! i = Some false →
  cancelled s !! j = Some false →
  i = j ∧ S i = runs s ∧ cleanup s = Some i.
Proof.
  intros s Hi Hj.
  assert (Hs : current_only s) by apply current_only_run, current_only_init.
  assert (Hl : ∀ id, cleanup s = Some id → S id = runs s).
  { apply cleanup_is_last_run. intros id. discriminate. }
  destruct Hs as (Hlive & _ & _).
  pose proof (Hlive i Hi) as Hci. pose proof (Hlive j Hj) as Hcj.
  split; [congruence|]. split; [by apply Hl | done].
Qed.

(** X2. After the unmount no completion changes the state, whatever
    requests settle and however. *)
Theorem no_update_after_unmount
    (evs : list (Event D)) (late : list (nat * Settlement D)) :
  let s := step (run evs init) Unmount in
  run (map (λ c, Settles c.1 c.2) late) s = s.
Proof.
  intros s.
  assert (Hno : ∀ id, cancelled s !! id ≠ Some false).
  { apply current_only_cleanup, current_only_run, current_only_init. }
  induction late as [|[id o] late IH]; simpl; [done|].
  rewrite settle_not_live by apply Hno. exact IH.
Qed.

(** X3. While the request started last is in flight, completions of any
    other requests leave the hook loading, with no error; when the request
    then resolves with a payload, the status is success, the payload is
    the data and there is no error. *)
Theorem superseded_responses_keep_loading
    (evs : list (Event D)) (others : list (nat * Settlement D)) :
  let s0 := run evs init in
  let s1 := run_effect s0 in
  Forall (λ c, c.1 ≠ runs s0) others →
  run (map (λ c, Settles c.1 c.2) others) s1 = s1 ∧
  status_of s1 = St_loading ∧
  error s1 = None ∧
  ∀ res d, ok res = true → json res = inr d →
    let s2 := settle (runs s0) (Fulfilled res) s1 in
    status_of s2 = St_success ∧ data s2 = Some d ∧ error s2 = None.
Proof.
  intros s0 s1 Hothers.
  assert (Hs1 : current_only s1).
  { apply current_only_effect, current_only_run, current_only_init. }
  destruct (effect_live s0) as (Hcell & Hclean & Herr & _).
  fold s1 in Hcell, Hclean, Herr.
  split; [|split; [done|split; [done|]]].
  - induction Hothers as [|[id o] others Hid _ IH]; simpl; [done|].
    rewrite settle_stale; [exact IH | exact Hs1 |].
    rewrite Hclean. simpl in Hid. congruence.
  - intros res d Hok Hjson s2. subst s2. unfold settle.
    rewrite Hcell. simpl. rewrite Hok, Hjson. simpl.
    unfold status_of. simpl. done.
Qed.

(** X4. The body of a response whose status is not 2xx is never read: the
    state after it is the same whatever the body is. A 2xx response whose
    body fails to parse is an error with the parser's message, and keeps
    the data. *)
Theorem response_body_use s (id : nat) (res : Response D) :
  (ok res = false →
     ∀ body, settle id (Fulfilled {| status := status res; json := body |}) s
             = settle id (Fulfilled res) s) ∧
  (ok res = true →
     ∀ message, json res = inl message →
       cancelled s !! id = Some false →
       let s' := settle id (Fulfilled res) s in
       status_of s' = St_error ∧ error s' = Some message ∧ data s' = data s).
Proof.
  split.
  - intros Hok body.
    assert (Hc : ∀ r : Response D, status r = status res →
              chain (Fulfilled r)
              = inl ("HTTP " +:+ nat_to_string (status res))).
    { intros r Hr. unfold chain, ok. rewrite Hr.
      unfold ok in Hok. by rewrite Hok. }
    unfold settle. by rewrite !Hc.
  - intros Hok message Hjson Hlive s'. subst s'. unfold settle.
    rewrite Hlive. simpl. by rewrite Hok, Hjson.
Qed.

End FetchMore.

(** X1 at a concrete run: two window changes after the mount; only
    request 2 is live. *)
Lemma at_most_one_live_request_witness :
  let evs : list (Fetch.Event string) := [Fetch.DepsChanged; Fetch.DepsChanged; Fetch.DepsChanged] in
  Fetch.cancelled (Fetch.run evs Fetch.init) !! 2%nat = Some false ∧
  Fetch.runs (Fetch.run evs Fetch.init) = 3%nat.
Proof.
  intros evs.
  assert (H : Fetch.cancelled (Fetch.run evs Fetch.init) !! 2%nat = Some false)
    by reflexivity.
  split; [exact H|].
  symmetry. exact (proj1 (proj2 (at_most_one_live_request evs 2 2 H H))).
Defined.

(** X3 at a concrete run: request 0 answers with an error after the
    window changed. *)
Lemma superseded_responses_keep_loading_witness :
  let evs : list (Fetch.Event string) := [Fetch.DepsChanged] in
  let others := [(0%nat, Fetch.Rejected "Failed to fetch")] in
  Forall (λ c : nat * Fetch.Settlement string,
            c.1 ≠ Fetch.runs (Fetch.run evs Fetch.init)) others ∧
  Fetch.status_of
    (Fetch.run (map (λ c, Fetch.Settles c.1 c.2) others)
       (Fetch.run_effect (Fetch.run evs Fetch.init))) = Fetch.St_loading.
Proof.
  intros evs others.
  assert (H : Forall (λ c : nat * Fetch.Settlement string,
                        c.1 ≠ Fetch.runs (Fetch.run evs Fetch.init)) others).
  { repeat constructor. simpl. discriminate. }
  split; [exact H|].
  destruct (superseded_responses_keep_loading evs others H) as (Hsame & Hload & _).
  rewrite Hsame. exact Hload.
Defined.

(** X4 at concrete responses: a 404 with a body, and a 200 whose body is
    not JSON. *)
Lemma response_body_use_witness :
  let s : Fetch.HookState string := Fetch.mount in
  let notFound := {| Fetch.status := 404; Fetch.json := inr "page" |} in
  let garbled := {| Fetch.status := 200; Fetch.json := inl "Unexpected token" |} in
  Fetch.ok notFound = false ∧ Fetch.ok garbled = true ∧
  Fetch.data (Fetch.settle 0 (Fetch.Fulfilled notFound) s) = None ∧
  Fetch.error (Fetch.settle 0 (Fetch.Fulfilled garbled) s) = Some "Unexpected token".
Proof.
  intros s notFound garbled.
  split; [reflexivity|]. split; [reflexivity|]. split.
  - rewrite <- (proj1 (response_body_use s 0 notFound) eq_refl (inl "x")).
    reflexivity.
  - exact (proj1 (proj2 (proj2 (response_body_use s 0 garbled) eq_refl
                           "Unexpected token" eq_refl eq_refl))).
Defined.

(** ** The view state: pages, footer, rows *)

Section ViewMore.

Import V3.
Local Open Scope Z_scope.
Implicit Types (s : ViewState) (w : string) (p : Z).

Lemma totalPages_ge_1 {A} (endpoints : list A) (pageSize : Z) :
  1 ≤ totalPages endpoints pageSize.
Proof. unfold totalPages. apply Z.le_max_l. Qed.

Lemma commit_activeWindow s : activeWindow (commit s) = activeWindow s.
Proof.
  unfold commit. destruct (effectDeps s) as [w|]; [|done].
  by destruct (String.eqb w (activeWindow s)).
Qed.

Lemma commit_page s : page (commit s) = page s ∨ page (commit s) = 1.
Proof.
  unfold commit. destruct (effectDeps s) as [w|]; [|by right].
  destruct (String.eqb w (activeWindow s)); [by left | by right].
Qed.

Lemma view_step_page tp s s' :
  1 ≤ tp → view_step tp s s' → 1 ≤ page s →
  1 ≤ page s' ∧ (page s ≤ tp → page s' ≤ tp).
Proof.
  intros Htp Hstep Hp. destruct Hstep as [s w _|s _|s p Hb|s _|s q|s]; simpl.
  - unfold selectWindow.
    match goal with |- context [commit ?v] =>
      destruct (commit_page v) as [->| ->] end; simpl; lia.
  - lia.
  - apply pageButtons_range in Hb. lia.
  - lia.
  - lia.
  - lia.
Qed.

Lemma view_step_settled tp s s' :
  view_step tp s s' → settled s ∧ activeWindow s ∈ windows →
  settled s' ∧ activeWindow s' ∈ windows.
Proof.
  intros Hstep Hs. destruct Hstep as [s w Hw|s _|s p _|s _|s q|s];
    try exact Hs.
  split; [apply commit_settled|].
  unfold selectWindow. by rewrite commit_activeWindow.
Qed.

(** X5. Whatever is clicked, and whatever data and positive page size
    each render has, the page number never drops below 1, the window is
    one of the five of the selector, and the reset effect has run for it. *)
Theorem page_never_below_one s :
  reachable (λ tp, ∃ (endpoints : list Endpoint) pageSize,
                     0 < pageSize ∧ tp = totalPages endpoints pageSize) s →
  1 ≤ page s ∧ activeWindow s ∈ windows ∧ settled s.
Proof.
  induction 1 as [|tp s s' _ IH (endpoints & pageSize & _ & ->) Hstep].
  - split; [done|]. split; [|done]. unfold windows. set_solver.
  - destruct IH as (Hp & Hw & Hs).
    destruct (view_step_page _ _ _ (totalPages_ge_1 _ _) Hstep Hp) as [Hp' _].
    destruct (view_step_settled _ _ _ Hstep (conj Hs Hw)) as [Hs' Hw'].
    done.
Qed.

(** The rows of a page from 1 on are none exactly when the page starts
    at or beyond the end of the list. *)
Lemma visibleEndpoints_nil {A} (endpoints : list A) p (pageSize : Z) :
  1 ≤ p → 0 < pageSize →
  visibleEndpoints endpoints p pageSize = [] ↔
  Z.of_nat (length endpoints) ≤ (p - 1) * pageSize.
Proof.
  intros Hp Hps. rewrite visibleEndpoints_take_drop by done.
  assert (0 ≤ (p - 1) * pageSize) by nia.
  split.
  - intros Hnil. apply (f_equal length) in Hnil.
    rewrite length_take, length_drop in Hnil. simpl in Hnil. lia.
  - intros Hle. rewrite drop_ge by lia. by rewrite take_nil.
Qed.

Lemma totalPages_covers {A} (endpoints : list A) (pageSize : Z) :
  0 < pageSize →
  Z.of_nat (length endpoints) ≤ totalPages endpoints pageSize * pageSize ∧
  (endpoints ≠ [] →
   (totalPages endpoints pageSize - 1) * pageSize < Z.of_nat (length endpoints)).
Proof.
  intros Hps. rewrite totalPages_div by done.
  set (n := Z.of_nat (length endpoints)).
  pose proof (Z.div_mod (n + pageSize - 1) pageSize ltac:(lia)) as H1.
  pose proof (Z.mod_pos_bound (n + pageSize - 1) pageSize Hps) as H2.
  split; [nia|].
  intros Hne. assert (0 < n) by (subst n; destruct endpoints; [done | simpl; lia]).
  nia.
Qed.

(** X6. While the endpoint list and the page size stay the same, every
    state reached by clicks has its page within 1..totalPages; so with a
    list that is not empty the table always shows at least one row. *)
Theorem page_stays_within_total (endpoints : list Endpoint) (pageSize : Z) s :
  0 < pageSize →
  reachable (λ tp, tp = totalPages endpoints pageSize) s →
  1 ≤ page s ≤ totalPages endpoints pageSize ∧
  (endpoints ≠ [] → visibleEndpoints endpoints (page s) pageSize ≠ []).
Proof.
  intros Hps Hreach.
  assert (Hin : 1 ≤ page s ≤ totalPages endpoints pageSize).
  { induction Hreach as [|tp s s' _ IH -> Hstep].
    - pose proof (totalPages_ge_1 endpoints pageSize). simpl. lia.
    - destruct (view_step_page _ _ _ (totalPages_ge_1 _ _) Hstep) as [? ?]; lia. }
  split; [exact Hin|].
  intros Hne Hnil. apply visibleEndpoints_nil in Hnil; [|lia|done].
  destruct (totalPages_covers endpoints pageSize Hps) as [_ Hlast].
  specialize (Hlast Hne). nia.
Qed.

(** X7. With the page within 1..totalPages, a pagination arrow is
    disabled exactly when clicking it would change nothing. *)
Theorem disabled_arrows_are_noops (tp : Z) s :
  1 ≤ page s ≤ tp →
  (prevDisabled s = true ↔ prevPage s = s) ∧
  (nextDisabled tp s = true ↔ nextPage tp s = s).
Proof.
  intros Hp. unfold prevDisabled, nextDisabled, prevPage, nextPage, setPage.
  rewrite !Z.eqb_eq. destruct s as [aw ad pg ex ed]; simpl in *.
  split; split.
  - intros ->. done.
  - intros [= Heq]. lia.
  - intros ->. f_equal. lia.
  - intros [= Heq]. lia.
Qed.

(** X8. On a page that has rows, the footer's range is the range of the
    rows shown: it starts at [(page - 1) * pageSize + 1], it counts as
    many numbers as there are rows, and row [i] is the endpoint numbered
    [showingFrom + i]. *)
Theorem footer_range_matches_rows {A} (endpoints : list A) p (pageSize : Z) :
  0 < pageSize → 1 ≤ p →
  (p - 1) * pageSize < Z.of_nat (length endpoints) →
  let rows := visibleEndpoints endpoints p pageSize in
  let from := showingFrom endpoints p pageSize in
  let to := showingTo endpoints p pageSize in
  from = (p - 1) * pageSize + 1 ∧
  to - from + 1 = Z.of_nat (length rows) ∧
  ∀ i : nat, (i < length rows)%nat →
    rows !! i = endpoints !! (Z.to_nat (from - 1) + i)%nat.
Proof.
  intros Hps Hp Hin rows from to. subst rows from to.
  unfold showingFrom, showingTo.
  rewrite visibleEndpoints_take_drop by done.
  rewrite length_take, length_drop.
  assert (0 ≤ (p - 1) * pageSize) by nia.
  rewrite Z.min_l by lia.
  split; [done|]. split; [lia|].
  intros i Hi. rewrite lookup_take_lt by lia. rewrite lookup_drop.
  f_equal. lia.
Qed.

(** X9. On a page that starts at or beyond the end of the list no row is
    shown, while the footer reads "n-n of n"; for the empty list it reads
    "0-0 of 0". *)
Theorem footer_beyond_last_page {A} (endpoints : list A) p (pageSize : Z) :
  0 < pageSize → 1 ≤ p →
  Z.of_nat (length endpoints) ≤ (p - 1) * pageSize →
  visibleEndpoints endpoints p pageSize = [] ∧
  showingFrom endpoints p pageSize = Z.of_nat (length endpoints) ∧
  showingTo endpoints p pageSize = Z.of_nat (length endpoints).
Proof.
  intros Hps Hp Hout. split; [by apply visibleEndpoints_nil|].
  unfold showingFrom, showingTo. lia.
Qed.

(** X10. Toggling the same row twice restores the expansion when that row
    or no row was expanded before, and closes everything when another row
    was; toggling one row and then another leaves the second expanded.
    Nothing else of the view state changes. *)
Theorem toggleExpand_pairs (a b : string) s :
  (expandedPath s = None ∨ expandedPath s = Some a →
     toggleExpand a (toggleExpand a s) = s) ∧
  (∀ c, expandedPath s = Some c → c ≠ a →
     expandedPath (toggleExpand a (toggleExpand a s)) = None) ∧
  (a ≠ b → expandedPath (toggleExpand b (toggleExpand a s)) = Some b) ∧
  (activeWindow (toggleExpand a s) = activeWindow s ∧
   page (toggleExpand a s) = page s ∧
   alertDismissed (toggleExpand a s) = alertDismissed s).
Proof.
  destruct s as [aw ad pg ex ed]; unfold toggleExpand; simpl.
  split; [|split; [|split; [|done]]].
  - intros [-> | ->]; simpl; rewrite ?String.eqb_refl; simpl;
      rewrite ?String.eqb_refl; done.
  - intros c -> Hne. apply String.eqb_neq in Hne. rewrite Hne. simpl.
    by rewrite String.eqb_refl.
  - intros Hne. apply String.eqb_neq in Hne.
    destruct ex as [c|]; simpl.
    + destruct (String.eqb c a); simpl; [done|]. by rewrite Hne.
    + by rewrite Hne.
Qed.

(** X11. Expansion is keyed by the path alone: after a row is toggled,
    the rows that are open are exactly those with that path (for instance
    both GET and POST of one path), or none if that path was open before;
    and the table has a row for every endpoint given. *)
Theorem rows_expand_by_path (a : string) s (rows : list Endpoint) :
  (expandedPath s ≠ Some a →
     ∀ ep, isExpanded (toggleExpand a s) ep = true ↔ path ep = a) ∧
  (expandedPath s = Some a →
     ∀ ep, isExpanded (toggleExpand a s) ep = false) ∧
  (∀ ep1 ep2, path ep1 = path ep2 → isExpanded s ep1 = isExpanded s ep2) ∧
  length (rowPanels s rows) = length rows.
Proof.
  split; [|split; [|split]].
  - intros Hne ep. unfold isExpanded, toggleExpand; simpl.
    destruct (expandedPath s) as [c|]; simpl.
    + destruct (String.eqb_spec c a) as [->|_]; [done|].
      rewrite String.eqb_eq. split; congruence.
    + rewrite String.eqb_eq. split; congruence.
  - intros Heq ep. unfold isExpanded, toggleExpand; simpl.
    rewrite Heq. by rewrite String.eqb_refl.
  - intros ep1 ep2 Hp. unfold isExpanded. by rewrite Hp.
  - unfold rowPanels. by rewrite length_map.
Qed.

(** X5 at a concrete session: 18 endpoints by 7, page 2 is selected. *)
Lemma page_never_below_one_witness :
  let ep := {| method := "GET"; path := "/a"; sparkline := [];
               errorLevel := ok; histogram := [] |} in
  let T := λ tp, ∃ (endpoints : list Endpoint) pageSize,
                   0 < pageSize ∧ tp = totalPages endpoints pageSize in
  reachable T (selectPage 2 mount) ∧ 1 ≤ page (selectPage 2 mount).
Proof.
  intros ep T.
  assert (Hr : reachable T (selectPage 2 mount)).
  { apply (reach_step T 3 mount); [apply reach_mount | |].
    - exists (replicate 18 ep), 7. split; [lia | reflexivity].
    - apply step_page. apply pageButtons_range. lia. }
  split; [exact Hr|].
  exact (proj1 (page_never_below_one _ Hr)).
Defined.

(** X6 at a concrete session: 18 endpoints by 7; page 2 is selected and
    next is clicked. *)
Lemma page_stays_within_total_witness :
  let ep := {| method := "GET"; path := "/a"; sparkline := [];
               errorLevel := ok; histogram := [] |} in
  let endpoints := replicate 18 ep in
  let s := nextPage 3 (selectPage 2 mount) in
  0 < 7 ∧
  reachable (λ tp, tp = totalPages endpoints 7) s ∧
  1 ≤ page s ≤ totalPages endpoints 7.
Proof.
  intros ep endpoints s.
  assert (Hr : reachable (λ tp, tp = totalPages endpoints 7) s).
  { apply (reach_step _ 3 (selectPage 2 mount)).
    - apply (reach_step _ 3 mount); [apply reach_mount | reflexivity |].
      apply step_page. apply pageButtons_range. lia.
    - reflexivity.
    - apply step_next. reflexivity. }
  split; [lia|]. split; [exact Hr|].
  exact (proj1 (page_stays_within_total endpoints 7 s ltac:(lia) Hr)).
Defined.

(** X7 at a concrete state: page 1 of 3. *)
Lemma disabled_arrows_are_noops_witness :
  1 ≤ page mount ≤ 3 ∧
  (prevDisabled mount = true ↔ prevPage mount = mount).
Proof.
  assert (H : 1 ≤ page mount ≤ 3) by (simpl; lia).
  split; [exact H|].
  exact (proj1 (disabled_arrows_are_noops 3 mount H)).
Defined.

(** X8 at the last page of five rows by two: "Showing 5-5 of 5". *)
Lemma footer_range_matches_rows_witness :
  let endpoints := ["a"; "b"; "c"; "d"; "e"] in
  0 < 2 ∧ 1 ≤ 3 ∧ (3 - 1) * 2 < Z.of_nat (length endpoints) ∧
  showingFrom endpoints 3 2 = 5 ∧
  showingTo endpoints 3 2 - showingFrom endpoints 3 2 + 1
  = Z.of_nat (length (visibleEndpoints endpoints 3 2)).
Proof.
  intros endpoints.
  assert (H : (3 - 1) * 2 < Z.of_nat (length endpoints)) by (simpl; lia).
  destruct (footer_range_matches_rows endpoints 3 2 ltac:(lia) ltac:(lia) H)
    as (Hfrom & Hcount & _).
  split; [lia|]. split; [lia|]. split; [exact H|].
  split; [exact Hfrom | exact Hcount].
Defined.

(** X9 at page 5 of a list that has three pages of seven. *)
Lemma footer_beyond_last_page_witness :
  let endpoints := replicate 18 "ep" in
  0 < 7 ∧ 1 ≤ 5 ∧ Z.of_nat (length endpoints) ≤ (5 - 1) * 7 ∧
  visibleEndpoints endpoints 5 7 = [] ∧
  showingFrom endpoints 5 7 = 18.
Proof.
  intros endpoints.
  assert (H : Z.of_nat (length endpoints) ≤ (5 - 1) * 7) by (simpl; lia).
  destruct (footer_beyond_last_page endpoints 5 7 ltac:(lia) ltac:(lia) H)
    as (Hrows & Hfrom & _).
  split; [lia|]. split; [lia|]. split; [exact H|].
  split; [exact Hrows | exact Hfrom].
Defined.

(** X10 at concrete rows. *)
Lemma toggleExpand_pairs_witness :
  expandedPath mount = None ∧
  toggleExpand "/a" (toggleExpand "/a" mount) = mount ∧
  expandedPath (toggleExpand "/b" (toggleExpand "/a" mount)) = Some "/b".
Proof.
  destruct (toggleExpand_pairs "/a" "/b" mount) as (Hsame & _ & Hother & _).
  split; [reflexivity|]. split.
  - apply Hsame. by left.
  - apply Hother. discriminate.
Defined.

(** X11 at two endpoints of one path. *)
Lemma rows_expand_by_path_witness :
  let get := {| method := "GET"; path := "/v2/files"; sparkline := [];
                errorLevel := ok; histogram := [] |} in
  let post := {| method := "POST"; path := "/v2/files"; sparkline := [];
                 errorLevel := ok; histogram := [] |} in
  expandedPath mount ≠ Some "/v2/files" ∧
  isExpanded (toggleExpand "/v2/files" mount) get = true ∧
  isExpanded (toggleExpand "/v2/files" mount) post = true.
Proof.
  intros get post.
  assert (H : expandedPath mount ≠ Some "/v2/files") by discriminate.
  destruct (rows_expand_by_path "/v2/files" mount [get; post]) as (Hopen & _).
  split; [exact H|]. split; apply (Hopen H); reflexivity.
Defined.

End ViewMore.

(** ** The window selector and the requests *)

Section DashboardFacts.

Import Fetch V3 Dashboard.
Context {D : Type}.

(** X12. Clicking the window that is already active changes nothing: the
    request in flight is neither cancelled nor started again. Clicking
    another window shows page 1 of it and starts one new request: the hook
    is loading, without error, still holding the data it had, and every
    request started before is discarded when it settles. *)
Theorem clickWindow_refetches (w : string) (d : Dashboard.State D) :
  settled (view d) →
  current_only (hook d) →
  (w = activeWindow (view d) → clickWindow w d = d) ∧
  (w ≠ activeWindow (view d) →
     let d' := clickWindow w d in
     activeWindow (view d') = w ∧
     page (view d') = 1%Z ∧
     runs (hook d') = S (runs (hook d)) ∧
     status_of (hook d') = St_loading ∧
     error (hook d') = None ∧
     data (hook d') = data (hook d) ∧
     ∀ id o, (id < runs (hook d))%nat → settle id o (hook d') = hook d').
Proof.
  intros Hs Hh. destruct d as [v h]; simpl in *. unfold settled in Hs.
  unfold clickWindow, selectWindow, commit; simpl. rewrite Hs. split.
  - intros ->. rewrite String.eqb_refl.
    destruct v as [aw ad pg ex ed]; simpl in *. by subst.
  - intros Hne.
    destruct (String.eqb_spec (activeWindow v) w) as [?|_]; [congruence|].
    simpl. destruct (effect_live h) as (_ & Hclean & Herr & Hdata).
    split; [done|]. split; [done|]. split; [by rewrite runs_cleanup|].
    split; [done|]. split; [done|]. split; [exact Hdata|].
    intros id o Hid. apply settle_stale; [by apply current_only_effect|].
    rewrite Hclean. intros [= Heq]. lia.
Qed.

End DashboardFacts.

(** X12 at the mounted dashboard: "7d" is clicked while request 0 is in
    flight; request 0 then resolves and is discarded. *)
Lemma clickWindow_refetches_witness :
  let d : Dashboard.State string := Dashboard.mount in
  let d' := Dashboard.clickWindow "7d" d in
  V3.settled (Dashboard.view d) ∧
  Fetch.current_only (Dashboard.hook d) ∧
  Fetch.runs (Dashboard.hook d') = 2%nat ∧
  Fetch.settle 0
    (Fetch.Fulfilled {| Fetch.status := 200; Fetch.json := inr "24h data" |})
    (Dashboard.hook d') = Dashboard.hook d'.
Proof.
  intros d d'.
  assert (Hs : V3.settled (Dashboard.view d)) by reflexivity.
  assert (Hh : Fetch.current_only (Dashboard.hook d))
    by apply current_only_effect, current_only_init.
  destruct (clickWindow_refetches "7d" d Hs Hh) as [_ Hnew].
  destruct Hnew as (_ & _ & Hruns & _ & _ & _ & Hstale); [discriminate|].
  split; [exact Hs|]. split; [exact Hh|]. split; [exact Hruns|].
  apply Hstale. simpl. lia.
Defined.

(** ** The request chart: positions *)

Section ChartMore.

Import V1.
Local Open Scope Q_scope.

Lemma index_pred (n : nat) : (1 <= n)%nat → index (n - 1) == index n - 1.
Proof.
  intros Hn. unfold index. rewrite Nat2Z.inj_sub by done.
  unfold Z.sub. rewrite inject_Z_plus, inject_Z_opp. reflexivity.
Qed.

Lemma index_span_pos (n : nat) : (2 <= n)%nat → 0 < index n - 1.
Proof.
  intros Hn. apply (proj1 (Qlt_minus_iff 1 (index n))).
  unfold index. change 1 with (inject_Z 1). rewrite <- Zlt_Qlt. lia.
Qed.

(** X13. For a series of at least 2 points the first point is drawn at
    the left padding, the last at the right edge of the frame, and the
    points in between at strictly increasing x. *)
Theorem px_spans_width (points : list ChartPoint) :
  (2 <= length points)%nat →
  px points 0 == padL ∧
  px points (length points - 1) == W ∧
  ∀ i j : nat, (i < j)%nat → px points i < px points j.
Proof.
  intros Hn. pose proof (index_span_pos _ Hn) as Hd.
  assert (Hd0 : ¬ index (length points) - 1 == 0).
  { intros H0. rewrite H0 in Hd. by apply Qlt_irrefl in Hd. }
  split; [|split].
  - unfold px. change (index 0) with 0. field. exact Hd0.
  - unfold px. rewrite index_pred by lia. unfold chartW, padL, W. field. exact Hd0.
  - intros i j Hij. unfold px. apply Qplus_lt_r.
    apply Qmult_lt_compat_r; [done|].
    unfold Qdiv. apply Qmult_lt_compat_r; [by apply Qinv_lt_0_compat|].
    unfold index. rewrite <- Zlt_Qlt. lia.
Qed.

Lemma value_le_scale (points : list ChartPoint) (v : Q) :
  In v (all_values points) →
  v <= fold_right Qmax 1 (map (λ p, Qmax (success p) (error p)) points).
Proof.
  intros Hv.
  pose proof (proj1 (foldr_max_lub 1
    (map (λ p, Qmax (success p) (error p)) points) _) (Qle_refl _)) as [_ Hall].
  rewrite Forall_map, Forall_forall in Hall.
  unfold all_values in Hv. apply in_app_or in Hv.
  destruct Hv as [Hv|Hv]; apply in_map_iff in Hv; destruct Hv as (p & <- & Hp);
    apply list_elem_of_In in Hp; specialize (Hall p Hp); simpl in Hall.
  - eapply Qle_trans; [apply Q.le_max_l | exact Hall].
  - eapply Qle_trans; [apply Q.le_max_r | exact Hall].
Qed.

Lemma scale_ge_1 (points : list ChartPoint) :
  1 <= fold_right Qmax 1 (map (λ p, Qmax (success p) (error p)) points).
Proof. apply (proj1 (foldr_max_lub 1 _ _) (Qle_refl _)). Qed.

(** X14. The scale is positive, so no division by zero; a larger value
    is drawn higher (smaller y); and every non-negative value of the
    series lies between the baseline and one eleventh of the chart height
    below the top, the headroom. *)
Theorem py_inside_plot (points : list ChartPoint) :
  0 < maxVal points ∧
  (∀ u v, u <= v → py points v <= py points u) ∧
  py points 0 == padT + chartH ∧
  ∀ v, In v (all_values points) → 0 <= v →
    padT + chartH / 11 <= py points v ∧ py points v <= padT + chartH.
Proof.
  set (F := fold_right Qmax 1 (map (λ p, Qmax (success p) (error p)) points)).
  assert (HF : 1 <= F) by apply scale_ge_1.
  assert (Hmv : maxVal points = F * (11 # 10)) by reflexivity.
  assert (Hpos : 0 < maxVal points) by (rewrite Hmv; lra).
  assert (Hinv : 0 < / maxVal points) by by apply Qinv_lt_0_compat.
  split; [exact Hpos|]. split; [|split].
  - intros u v Huv. unfold py, chartH, V1.H, padB, padT. unfold Qdiv.
    assert (Hle : u * / maxVal points <= v * / maxVal points)
      by (apply Qmult_le_compat_r; [done | lra]).
    revert Hle. generalize (u * / maxVal points) (v * / maxVal points).
    intros a b Hab. lra.
  - unfold py, chartH, V1.H, padB, padT, Qdiv.
    generalize (/ maxVal points). intros a. lra.
  - intros v Hv Hv0.
    assert (Hle : v <= F) by by apply value_le_scale.
    assert (Hq1 : v / maxVal points <= 10 # 11).
    { apply Qle_shift_div_r; [done|]. rewrite Hmv. lra. }
    assert (Hq0 : 0 <= v / maxVal points).
    { apply Qle_shift_div_l; [done|]. lra. }
    revert Hq0 Hq1. unfold py, chartH, V1.H, padB, padT.
    generalize (v / maxVal points). intros q Hq0 Hq1.
    assert (Hc : (160 - 20 - 10) / 11 == 130 # 11) by reflexivity.
    rewrite Hc. split; lra.
Qed.

Lemma StronglySorted_seq (a n : nat) : StronglySorted lt (seq a n).
Proof.
  revert a. induction n as [|n IH]; intros a; simpl; constructor; [apply IH|].
  apply Forall_forall. intros x Hx%list_elem_of_In%in_seq. lia.
Qed.

Lemma StronglySorted_filter (f : nat → bool) (l : list nat) :
  StronglySorted lt l → StronglySorted lt (List.filter f l).
Proof.
  induction 1 as [|x l Hl IH Hx]; simpl; [constructor|].
  destruct (f x); [|exact IH]. constructor; [exact IH|].
  rewrite Forall_forall in *. intros y Hy%list_elem_of_In%filter_In.
  apply Hx, list_elem_of_In, Hy.
Qed.

(** X15. The label indices come in strictly increasing order, each one is
    the index of a point, and the k-th label is drawn at that point's x
    with that point's hour as its text. *)
Theorem xLabels_name_points (str : Q → string) (points : list ChartPoint) :
  StronglySorted lt (xLabelIndices points) ∧
  (∀ (k i : nat), xLabelIndices points !! k = Some i →
     ∃ p, points !! i = Some p ∧
          xLabels (chart_geometry str points) !! k = Some (px points i, hour p)).
Proof.
  split.
  - rewrite xLabelIndices_filter. apply StronglySorted_filter, StronglySorted_seq.
  - intros k i Hk.
    assert (Hi : (i < length points)%nat).
    { apply (xLabelIndices_elem points i), list_elem_of_lookup. eauto. }
    destruct (lookup_lt_is_Some_2 points i Hi) as [p Hp].
    exists p. split; [exact Hp|]. simpl.
    change (map ?f ?l) with (f <$> l). rewrite list_lookup_fmap, Hk. simpl.
    by rewrite Hp.
Qed.

(** X17. A render of the chart or of a sparkline takes an identifier
    from React exactly when the series has at least 2 elements; with
    fewer it returns the empty frame and calls no hook. *)
Theorem useId_called_when_drawn (str : Q → string) (env : React.Env) :
  (∀ points,
     React.hookCalls (snd (RequestChart str points env))
     = (React.hookCalls env + (if (length points <? 2)%nat then 0 else 1))%nat ∧
     ((length points < 2)%nat →
      RequestChart str points env = (EmptyFrame 560 160, env))) ∧
  (∀ values level,
     React.hookCalls (snd (V3.Sparkline str values level env))
     = (React.hookCalls env + (if (length values <? 2)%nat then 0 else 1))%nat ∧
     ((length values < 2)%nat →
      V3.Sparkline str values level env = (V3.EmptySpark 72 28, env))).
Proof.
  split.
  - intros points. unfold RequestChart.
    destruct (Nat.ltb_spec (length points) 2) as [Hlt|Hge]; simpl.
    + split; [lia | done].
    + split; [lia | intros; lia].
  - intros values level. unfold V3.Sparkline.
    destruct (Nat.ltb_spec (length values) 2) as [Hlt|Hge]; simpl.
    + split; [lia | done].
    + split; [lia | intros; lia].
Qed.

End ChartMore.

Section ChartMoreExamples.

Local Open Scope Q_scope.

(** X13 at the two points of the specification's example. *)
Lemma px_spans_width_witness :
  let points := [ {| V1.hour := "00:00"; V1.success := 100; V1.error := 5 |};
                  {| V1.hour := "01:00"; V1.success := 150; V1.error := 3 |} ] in
  (2 <= length points)%nat ∧
  V1.px points 0 == 20 ∧ V1.px points 1 == 560.
Proof.
  intros points.
  destruct (px_spans_width points ltac:(simpl; lia)) as (H0 & H1 & _).
  split; [simpl; lia|]. split; [exact H0 | exact H1].
Defined.

(** X14 at the same points: the value 150 is drawn one eleventh of the
    chart height below the top. *)
Lemma py_inside_plot_witness :
  let points := [ {| V1.hour := "00:00"; V1.success := 100; V1.error := 5 |};
                  {| V1.hour := "01:00"; V1.success := 150; V1.error := 3 |} ] in
  In 150 (V1.all_values points) ∧ 0 <= 150 ∧
  V1.padT + V1.chartH / 11 <= V1.py points 150.
Proof.
  intros points.
  assert (Hin : In 150 (V1.all_values points)) by (simpl; tauto).
  assert (H0 : 0 <= 150) by done.
  destruct (py_inside_plot points) as (_ & _ & _ & Hin_plot).
  split; [exact Hin|]. split; [exact H0|].
  exact (proj1 (Hin_plot 150 Hin H0)).
Defined.

End ChartMoreExamples.

(** X15 at a series of 12 points: the second label is the one of point 2. *)
Lemma xLabels_name_points_witness :
  let str := λ q : Q, Z_to_string (Qfloor q) in
  let points := replicate 12 {| V1.hour := "h"; V1.success := 1; V1.error := 0 |} in
  V1.xLabelIndices points !! 1%nat = Some 2%nat ∧
  ∃ p, points !! 2%nat = Some p ∧
       V1.xLabels (V1.chart_geometry str points) !! 1%nat
       = Some (V1.px points 2, V1.hour p).
Proof.
  intros str points.
  assert (H : V1.xLabelIndices points !! 1%nat = Some 2%nat) by reflexivity.
  split; [exact H|].
  exact (proj2 (xLabels_name_points str points) 1%nat 2%nat H).
Defined.

(** X16 at a series of 4 points. *)
Lemma xLabelIndices_short_witness :
  let points := replicate 4 {| V1.hour := "h"; V1.success := 1; V1.error := 0 |} in
  (2 ≤ length points < 5)%nat ∧
  V1.xLabelIndices points = [0; 3]%nat.
Proof.
  intros points.
  assert (H : (2 ≤ length points < 5)%nat) by (simpl; lia).
  split; [exact H|]. exact (xLabelIndices_short points H).
Defined.

(** X17 at a series of one point. *)
Lemma useId_called_when_drawn_witness :
  let str := λ q : Q, Z_to_string (Qfloor q) in
  let env := {| React.idOf := λ _, ":r0:"; React.hookCalls := 4 |} in
  let points := [ {| V1.hour := "00:00"; V1.success := 100; V1.error := 5 |} ] in
  (length points < 2)%nat ∧
  V1.RequestChart str points env = (V1.EmptyFrame 560 160, env).
Proof.
  intros str env points.
  assert (H : (length points < 2)%nat) by (simpl; lia).
  split; [exact H|].
  exact (proj2 (proj1 (useId_called_when_drawn str env) points) H).
Defined.

(** ** The gradient's name *)

Lemma has_colon_app (a b : string) :
  has_colon (a +:+ b) = has_colon a || has_colon b.
Proof.
  induction a as [|c a IH]; simpl; [done|].
  rewrite IH. by rewrite orb_assoc.
Qed.

Lemma remove_colons_clean (s : string) : has_colon (remove_colons s) = false.
Proof.
  induction s as [|c s IH]; simpl; [done|].
  destruct (Ascii.eqb c ":") eqn:Hc; simpl; [done|]. by rewrite Hc.
Qed.

Lemma remove_colons_id (s : string) :
  has_colon s = false → remove_colons s = s.
Proof.
  induction s as [|c s IH]; simpl; [done|].
  destruct (Ascii.eqb c ":"); simpl; [done|]. intros Hs. by rewrite IH.
Qed.

(** X18. Whatever identifier React hands out, the gradient's name in a
    drawn chart or sparkline contains no colon; an identifier without
    colons is used as it is. *)
Theorem gradient_id_has_no_colon (str : Q → string) (env : React.Env) :
  (∀ points gradId g,
     fst (V1.RequestChart str points env) = V1.Chart gradId g →
     has_colon gradId = false ∧
     (has_colon (React.idOf env (React.hookCalls env)) = false →
      gradId = React.idOf env (React.hookCalls env) +:+ "-area")) ∧
  (∀ values level gradId g,
     fst (V3.Sparkline str values level env) = V3.Spark gradId g →
     has_colon gradId = false ∧
     (has_colon (React.idOf env (React.hookCalls env)) = false →
      gradId = React.idOf env (React.hookCalls env) +:+ "-sg")).
Proof.
  split.
  - intros points gradId g. unfold V1.RequestChart.
    destruct (length points <? 2)%nat; simpl; [done|].
    intros [= <- _]. split.
    + by rewrite has_colon_app, remove_colons_clean.
    + intros Hid. by rewrite remove_colons_id.
  - intros values level gradId g. unfold V3.Sparkline.
    destruct (length values <? 2)%nat; simpl; [done|].
    intros [= <- _]. split.
    + by rewrite has_colon_app, remove_colons_clean.
    + intros Hid. by rewrite remove_colons_id.
Qed.

(** X18 at React's usual identifiers. *)
Lemma gradient_id_has_no_colon_witness :
  let str := λ q : Q, Z_to_string (Qfloor q) in
  let env := {| React.idOf := λ _, ":r3:"; React.hookCalls := 0 |} in
  let values := [1 # 2; 1]%Q in
  fst (V3.Sparkline str values V3.ok env)
  = V3.Spark "r3-sg" (V3.spark_geometry str values V3.ok) ∧
  has_colon "r3-sg" = false.
Proof.
  intros str env values.
  assert (H : fst (V3.Sparkline str values V3.ok env)
              = V3.Spark "r3-sg" (V3.spark_geometry str values V3.ok))
    by reflexivity.
  split; [exact H|].
  exact (proj1 (proj2 (gradient_id_has_no_colon str env) values V3.ok _ _ H)).
Defined.

(** ** The sparkline *)

Section SparkMore.

Import V3.
Local Open Scope Q_scope.

Lemma xs_at (values : list Q) (i : nat) :
  (i < length values)%nat →
  at_ (xs values) i
  = pad + (index i / (index (length values) - 1)) * (W - pad * 2).
Proof.
  intros Hi. unfold at_, xs. rewrite list_lookup_imap.
  destruct (lookup_lt_is_Some_2 values i Hi) as [v ->]. done.
Qed.

(** X19. For at least 2 values the sparkline has one x per value; the
    first is at the left padding, the last (where the dot is drawn) at the
    right padding, and they increase strictly in between. *)
Theorem spark_xs_span (str : Q → string) (values : list Q) (level : ErrorLevel) :
  (2 <= length values)%nat →
  length (xs values) = length values ∧
  at_ (xs values) 0 == pad ∧
  at_ (xs values) (length values - 1) == W - pad ∧
  fst (dot (spark_geometry str values level)) == W - pad ∧
  ∀ i j : nat, (i < j < length values)%nat →
    at_ (xs values) i < at_ (xs values) j.
Proof.
  intros Hn. pose proof (index_span_pos _ Hn) as Hd.
  change (V1.index ?a) with (index a) in Hd.
  assert (Hd0 : ¬ index (length values) - 1 == 0).
  { intros H0. rewrite H0 in Hd. by apply Qlt_irrefl in Hd. }
  assert (Hlast : at_ (xs values) (length values - 1) == W - pad).
  { rewrite xs_at by lia.
    pose proof (index_pred (length values) ltac:(lia)) as Hp.
    change (V1.index ?a) with (index a) in Hp. rewrite Hp.
    unfold pad, W. field. exact Hd0. }
  split; [apply length_imap|]. split; [|split; [exact Hlast|split]].
  - rewrite xs_at by lia. change (index 0) with 0. field. exact Hd0.
  - simpl.
    replace (length (xs values)) with (length values)
      by (symmetry; apply length_imap).
    exact Hlast.
  - intros i j Hij. rewrite !xs_at by lia. apply Qplus_lt_r.
    apply Qmult_lt_compat_r; [done|].
    unfold Qdiv. apply Qmult_lt_compat_r; [by apply Qinv_lt_0_compat|].
    unfold index. rewrite <- Zlt_Qlt. lia.
Qed.

(** X20. Each value v is drawn at y = 22 - 20 v: a value in [0,1] lies
    between y = 2 and y = 22 of the 28 high frame; values are not clamped,
    so one above 1.1 or below -0.3 is drawn outside the frame. *)
Theorem spark_ys_range (values : list Q) (i : nat) (v : Q) :
  values !! i = Some v →
  ∃ y, ys values !! i = Some y ∧
       y == 22 - 20 * v ∧
       (0 <= v <= 1 → pad <= y <= 22) ∧
       (11 # 10 < v → y < 0) ∧
       (v < - (3 # 10) → H < y).
Proof.
  intros Hv. eexists. split.
  - unfold ys. change (map ?f ?l) with (f <$> l).
    rewrite list_lookup_fmap, Hv. reflexivity.
  - unfold pad, H. split; [ring|]. repeat split; lra.
Qed.

End SparkMore.

(** X19 at three values. *)
Lemma spark_xs_span_witness :
  let str := λ q : Q, Z_to_string (Qfloor q) in
  let values := [0; 1 # 2; 1]%Q in
  (2 <= length values)%nat ∧
  (V3.at_ (V3.xs values) 2 == 70)%Q.
Proof.
  intros str values.
  destruct (spark_xs_span str values V3.ok ltac:(simpl; lia))
    as (_ & _ & Hlast & _).
  split; [simpl; lia | exact Hlast].
Defined.

(** X20 at a value above the range. *)
Lemma spark_ys_range_witness :
  let values := [1 # 2; 3 # 2]%Q in
  values !! 1%nat = Some (3 # 2)%Q ∧
  ∃ y, V3.ys values !! 1%nat = Some y ∧ (y < 0)%Q.
Proof.
  intros values.
  assert (H : values !! 1%nat = Some (3 # 2)%Q) by reflexivity.
  split; [exact H|].
  destruct (spark_ys_range values 1 (3 # 2)%Q H) as (y & Hy & _ & _ & Hout & _).
  exists y. split; [exact Hy|]. apply Hout. reflexivity.
Defined.

(** ** The histogram bars *)

Section BarFacts.

Import V3.
Local Open Scope Q_scope.

Lemma gtb_lt (x y : Q) : gtb x y = true ↔ y < x.
Proof.
  unfold gtb. rewrite negb_true_iff, <- not_true_iff_false, Qle_bool_iff.
  split; [apply Qnot_le_lt | apply Qlt_not_le].
Qed.

Lemma gtb_le (x y : Q) : gtb x y = false ↔ x <= y.
Proof. unfold gtb. by rewrite negb_false_iff, Qle_bool_iff. Qed.

(** X21. Every bucket gets a bar, and a bar is never lower than 2
    percent: it is 2 percent for a relative height up to 0.02 and the
    relative height times 100 above that, so at most 100 percent when the
    relative height is at most 1. *)
Theorem bar_height_floor (histogram : list Bucket) (b : Bucket) :
  length (LatencyHistogram histogram) = length histogram ∧
  2 <= heightPercent (bar b) ∧
  (bucketPct b <= 2 # 100 → heightPercent (bar b) == 2) ∧
  (2 # 100 <= bucketPct b → heightPercent (bar b) == bucketPct b * 100) ∧
  (bucketPct b <= 1 → heightPercent (bar b) <= 100).
Proof.
  split; [apply length_map|]. simpl.
  split; [apply Q.le_max_r|]. split; [|split].
  - intros Hle. apply Q.max_r. lra.
  - intros Hge. apply Q.max_l. lra.
  - intros Hle. apply Q.max_lub; lra.
Qed.

(** X22. A bar whose count is not shown has a relative height of at most
    0.15, so it has the lightest colour and is at most 15 percent high; a
    bar in the danger or the accent colour always shows its count. *)
Theorem bar_count_and_colour (b : Bucket) :
  (countShown (bar b) = false →
     bucketPct b <= 15 # 100 ∧
     background (bar b) = "#c7d2fe" ∧
     heightPercent (bar b) <= 15) ∧
  (background (bar b) ≠ "#c7d2fe" →
     countShown (bar b) = true ∧ 4 # 10 < bucketPct b).
Proof.
  unfold bar; simpl. split.
  - intros Hc%gtb_le.
    assert (H7 : gtb (bucketPct b) (7 # 10) = false) by (apply gtb_le; lra).
    assert (H4 : gtb (bucketPct b) (4 # 10) = false) by (apply gtb_le; lra).
    rewrite H7, H4. split; [exact Hc|]. split; [done|].
    apply Q.max_lub; lra.
  - destruct (gtb (bucketPct b) (7 # 10)) eqn:H7.
    + intros _. apply gtb_lt in H7. split; [apply gtb_lt|]; lra.
    + destruct (gtb (bucketPct b) (4 # 10)) eqn:H4; [|done].
      intros _. apply gtb_lt in H4. split; [apply gtb_lt|]; lra.
Qed.

End BarFacts.

(** X21 at the empty bucket of the usage example. *)
Lemma bar_height_floor_witness :
  let b := {| V3.bucketLabel := ">1s"; V3.count := 4100; V3.bucketPct := 5 # 1000 |} in
  (V3.bucketPct b <= 2 # 100)%Q ∧ (V3.heightPercent (V3.bar b) == 2)%Q.
Proof.
  intros b.
  assert (H : (V3.bucketPct b <= 2 # 100)%Q) by done.
  split; [exact H|].
  exact (proj1 (proj2 (proj2 (bar_height_floor [] b))) H).
Defined.

(** X22 at a small bucket. *)
Lemma bar_count_and_colour_witness :
  let b := {| V3.bucketLabel := "200-500ms"; V3.count := 98310; V3.bucketPct := 12 # 100 |} in
  V3.countShown (V3.bar b) = false ∧ V3.background (V3.bar b) = "#c7d2fe".
Proof.
  intros b.
  assert (H : V3.countShown (V3.bar b) = false) by reflexivity.
  split; [exact H|].
  exact (proj1 (proj2 (proj1 (bar_count_and_colour b) H))).
Defined.

(** ** The donut: no normalisation *)

Section DonutMore.

Local Open Scope Q_scope.

Lemma circumference_pos (r : Q) : 0 < r → 0 < circumference r.
Proof. intros Hr. unfold circumference, Math_PI. lra. Qed.

(** X23. The donut draws one arc a slice, also for a slice of 0 percent,
    and never rescales: the arcs' lengths sum to (sum of the percentages /
    100) times the circumference, so percentages below 100 leave a part of
    the ring undrawn and percentages above 100 overdraw it; the dash and
    the gap of every arc make one full circumference. *)
Theorem donut_no_normalisation (r : Q) (slices : list Slice) :
  let arcs := donut_arcs r slices in
  let c := circumference r in
  length arcs = length slices ∧
  Qsum (map dash arcs) == Qsum (map pct slices) / 100 * c ∧
  Forall (λ a, dash a + gap a == c) arcs ∧
  (0 < r → Qsum (map pct slices) < 100 → Qsum (map dash arcs) < c) ∧
  (0 < r → 100 < Qsum (map pct slices) → c < Qsum (map dash arcs)).
Proof.
  intros arcs c. subst arcs c. rewrite donut_arcs_eq.
  assert (Hsum := Qsum_dash r slices 0).
  split; [|split; [exact Hsum|split; [|split]]].
  - rewrite <- (length_map dash), arcs_from_dash. apply length_map.
  - apply Forall_lookup_2. intros i a Hi.
    destruct (arcs_from_lookup _ _ _ _ _ Hi) as (_ & -> & _). ring.
  - intros Hr Hlt. rewrite Hsum. pose proof (circumference_pos r Hr) as Hc.
    assert (H1 : Qsum (map pct slices) / 100 < 1).
    { apply Qlt_shift_div_r; [done | lra]. }
    apply Qlt_le_trans with (1 * circumference r).
    + by apply Qmult_lt_compat_r.
    + rewrite Qmult_1_l. apply Qle_refl.
  - intros Hr Hgt. rewrite Hsum. pose proof (circumference_pos r Hr) as Hc.
    assert (H1 : 1 < Qsum (map pct slices) / 100).
    { apply Qlt_shift_div_l; [done | lra]. }
    apply Qle_lt_trans with (1 * circumference r).
    + rewrite Qmult_1_l. apply Qle_refl.
    + by apply Qmult_lt_compat_r.
Qed.

End DonutMore.

(** X23 at a breakdown that sums to 90. *)
Lemma donut_no_normalisation_witness :
  let slices := [ {| label := "2xx"; pct := 60; color := "#059669" |};
                  {| label := "4xx"; pct := 30; color := "#d97706" |} ] in
  (0 < 28)%Q ∧ (Qsum (map pct slices) < 100)%Q ∧
  (Qsum (map dash (arcs (V3.Donut slices))) < circumference 28)%Q.
Proof.
  intros slices.
  assert (Hr : (0 < 28)%Q) by done.
  assert (Hs : (Qsum (map pct slices) < 100)%Q) by done.
  split; [exact Hr|]. split; [exact Hs|].
  exact (proj1 (proj2 (proj2 (proj2 (donut_no_normalisation 28 slices)))) Hr Hs).
Defined.
